(** * gorouter: route registry and proxy round-tripper

    A shallow embedding of [registry/registry.go] (the route registry:
    [Register], [Unregister], [Lookup], [LookupWithInstance], the prune
    tick) and of the collaborators it calls ([route.Uri], [route.Pool],
    [container.Trie]) together with the proxy round-tripper exercised by
    the round-tripper test-suite.

    Conventions.
    - [time.Time] and [time.Duration] are integers (nanoseconds) in [Z].
    - A Go pointer to a pool or an endpoint is embedded by value; a pool
      that the Go code mutates in place through the pointer kept in the
      trie is written back to the trie at its key.
    - [time.Now()] is an argument of the operation that reads it; the prune,
      where [freshenRoutes] and every [PruneEndpoints] read the clock on
      their own, has an argument for each reading.
    - The recording fakes of the reporter and of the logger are lists of
      calls, the most recent call last. *)

From Stdlib Require Import ZArith Ascii String List Bool Lia.
From stdpp Require Import base option list strings gmap fin_maps.

Set Warnings "-register-all".
#[local] Open Scope Z_scope.

(** ** Strings *)

Module Str.

Definition slash : ascii := "/"%char.
Definition dot : ascii := "."%char.
Definition star : ascii := "*"%char.

(** [strings.ToLower] on the ASCII letters. *)
Definition lower_ascii (c : ascii) : ascii :=
  let n := nat_of_ascii c in
  if ((65 <=? n) && (n <=? 90))%nat then ascii_of_nat (n + 32) else c.

Fixpoint ToLower (s : string) : string :=
  match s with
  | EmptyString => EmptyString
  | String c r => String (lower_ascii c) (ToLower r)
  end.

(** The part of [s] before the first [c]; all of [s] when [c] is absent. *)
Fixpoint cut_at (c : ascii) (s : string) : string :=
  match s with
  | EmptyString => EmptyString
  | String x r => if Ascii.eqb x c then EmptyString else String x (cut_at c r)
  end.

(** The part of [s] from the first [c] on, [c] included. *)
Fixpoint from_first (c : ascii) (s : string) : option string :=
  match s with
  | EmptyString => None
  | String x r => if Ascii.eqb x c then Some s else from_first c r
  end.

(** The part of [s] before the last [c]; [None] when [c] is absent. *)
Fixpoint before_last (c : ascii) (s : string) : option string :=
  match s with
  | EmptyString => None
  | String x r =>
      match before_last c r with
      | Some p => Some (String x p)
      | None => if Ascii.eqb x c then Some EmptyString else None
      end
  end.

(** [strings.TrimPrefix s "/"]. *)
Definition trim_slash (s : string) : string :=
  match s with
  | String x r => if Ascii.eqb x slash then r else s
  | EmptyString => s
  end.

(** [strings.TrimPrefix s "*."]. *)
Definition trim_wildcard (s : string) : string :=
  match s with
  | String x (String y r) =>
      if Ascii.eqb x star && Ascii.eqb y dot then r else s
  | _ => s
  end.

(** [strings.Split s "/"]: never empty. *)
Fixpoint split_slash (s : string) : list string :=
  match s with
  | EmptyString => [EmptyString]
  | String x r =>
      if Ascii.eqb x slash then EmptyString :: split_slash r
      else match split_slash r with
           | seg :: segs => String x seg :: segs
           | [] => [String x EmptyString]
           end
  end.

(** [strings.SplitN s "/" 2]: the part before the first slash and, when
    there is a slash, the part after it. *)
Fixpoint splitN2_slash (s : string) : string * option string :=
  match s with
  | EmptyString => (EmptyString, None)
  | String x r =>
      if Ascii.eqb x slash then (EmptyString, Some r)
      else let '(h, t) := splitN2_slash r in (String x h, t)
  end.

Fixpoint drop_last (s : string) : string :=
  match s with
  | EmptyString => EmptyString
  | String x EmptyString => EmptyString
  | String x r => String x (drop_last r)
  end.

Fixpoint ends_with (c : ascii) (s : string) : bool :=
  match s with
  | EmptyString => false
  | String x EmptyString => Ascii.eqb x c
  | String _ r => ends_with c r
  end.

(** [ContainSubstring]: [sub] occurs in [s]. *)
Definition Contains (s sub : string) : Prop :=
  exists pre post : string, s = String.append pre (String.append sub post).

End Str.

(** ** route.Uri *)

Definition Uri := string.

Inductive UriError := NoFallback.

(** Modelled from the spec: [route.Uri.RouteKey] is not among the sources.
    Section 4.1: it lowercases the host and the path, drops query and
    fragment, and removes a single trailing slash, except when the entire
    path is the slash. *)
Definition RouteKey (u : Uri) : Uri :=
  let s := Str.ToLower (Str.cut_at "#" (Str.cut_at "?" u)) in
  match Str.from_first Str.slash s with
  | None => s
  | Some path =>
      if String.eqb path "/" then s
      else if Str.ends_with Str.slash s then Str.drop_last s else s
  end.

(** Modelled from the spec: [route.Uri.NextWildcard] is not among the
    sources. Section 4.1: strip one trailing path segment; when no path
    remains, replace the leftmost host label with the star, once per call
    ([a.b.c], then [*.b.c], then [*.c]); then exhaustion, which fails with
    [NoFallback]. As a Go function it returns a pair: on exhaustion the key
    comes back unchanged next to the error. *)
Definition NextWildcard (k : Uri) : Uri * option UriError :=
  match Str.before_last Str.slash k with
  | Some parent => (parent, None)
  | None =>
      match Str.from_first Str.dot (Str.trim_wildcard k) with
      | Some rest => (String Str.star rest, None)
      | None => (k, Some NoFallback)
      end
  end.

(** The number of characters left of a key once its wildcard prefix is
    dropped: every successful [NextWildcard] lowers it. *)
Definition wildcard_rank (k : Uri) : nat :=
  String.length (Str.trim_wildcard k).

(** ** route.Endpoint *)

Definition Time := Z.
Definition Duration := Z.

(** [time.Duration] is a signed 64-bit count of nanoseconds. *)
Definition minDuration : Duration := - 2 ^ 63.
Definition maxDuration : Duration := 2 ^ 63 - 1.

(** [Time.Sub]: the difference, saturated at the ends of [time.Duration].
    [time.Since(t)] is [Sub] of the clock and [t]. *)
Definition Sub (t u : Time) : Duration :=
  Z.max minDuration (Z.min maxDuration (t - u)).

(** The zero [time.Time], January 1 of year 1, in nanoseconds from the
    Unix epoch. *)
Definition zeroTime : Time := -62135596800 * 1000000000.

Record ModificationTag := mkTag { Guid : string; Index : Z }.

(** Modelled from the spec: [route.Endpoint] is not among the sources.
    Section 3: canonical address, application identity, tags, the
    stale-threshold override, the modification tag and the mutable
    [updated_at] stamp. *)
Record Endpoint := mkEndpoint {
  CanonicalAddr : string;
  ApplicationId : string;
  PrivateInstanceIndex : string;
  PrivateInstanceId : string;
  Tags : list (string * string);
  staleThreshold : Duration;
  ModTag : ModificationTag;
  updated_at : Time
}.

Definition stamp (t : Time) (e : Endpoint) : Endpoint :=
  {| CanonicalAddr := CanonicalAddr e;
     ApplicationId := ApplicationId e;
     PrivateInstanceIndex := PrivateInstanceIndex e;
     PrivateInstanceId := PrivateInstanceId e;
     Tags := Tags e;
     staleThreshold := staleThreshold e;
     ModTag := ModTag e;
     updated_at := t |}.

(** The equality key of an endpoint is its canonical address. *)
Definition same_addr (a b : Endpoint) : bool :=
  String.eqb (CanonicalAddr a) (CanonicalAddr b).

(** [models.ModificationTag.SucceededBy] of the routing-api library, which
    section 3 leaves opaque: a tag without guid is succeeded by any tag and
    succeeds any tag; otherwise a different guid or a larger index succeeds. *)
Definition SucceededBy (old new : ModificationTag) : bool :=
  String.eqb (Guid old) "" || String.eqb (Guid new) ""
  || negb (String.eqb (Guid old) (Guid new)) || (Index old <? Index new).

(** ** route.Pool *)

(** Modelled from the spec: [route.Pool] is not among the sources.
    Section 3: the context path, the retry/age threshold, the ordered
    sequence of endpoints (no two with the same canonical address) and the
    round-robin cursor. *)
Record Pool := mkPool {
  contextPath : string;
  retryAfterFailure : Duration;
  endpoints : list Endpoint;
  nextIdx : nat
}.

Definition NewPool (retryAfterFailure : Duration) (contextPath : string) : Pool :=
  {| contextPath := contextPath;
     retryAfterFailure := retryAfterFailure;
     endpoints := [];
     nextIdx := 0 |}.

Definition with_endpoints (p : Pool) (es : list Endpoint) : Pool :=
  {| contextPath := contextPath p;
     retryAfterFailure := retryAfterFailure p;
     endpoints := es;
     nextIdx := nextIdx p |}.

(** The insertion behind [Pool.Put]: a new canonical address is appended
    and stamped with the clock; an address already present is replaced, and
    stamped, by an endpoint whose modification tag succeeds the stored one,
    and left alone otherwise. The flag tells whether the endpoint was
    stored: the round-tripper tests put the same endpoint twice and expect
    true both times. *)
Fixpoint put_endpoint (now : Time) (e : Endpoint) (es : list Endpoint)
  : list Endpoint * bool :=
  match es with
  | [] => ([stamp now e], true)
  | x :: tl =>
      if same_addr x e then
        if SucceededBy (ModTag x) (ModTag e)
        then (stamp now e :: tl, true)
        else (x :: tl, false)
      else
        let '(tl', added) := put_endpoint now e tl in (x :: tl', added)
  end.

(** Modelled from the spec: [Pool.Put], section 4.2. *)
Definition Put (now : Time) (e : Endpoint) (p : Pool) : Pool * bool :=
  let '(es, added) := put_endpoint now e (endpoints p) in
  (with_endpoints p es, added).

(** Modelled from the spec: [Pool.Remove], section 4.2: deletes by
    canonical address and returns true on a hit. *)
Definition Remove (e : Endpoint) (p : Pool) : Pool * bool :=
  (with_endpoints p (List.filter (fun x => negb (same_addr x e)) (endpoints p)),
   existsb (fun x => same_addr x e) (endpoints p)).

Definition IsEmpty (p : Pool) : bool :=
  match endpoints p with [] => true | _ => false end.

(** Modelled from the spec: [Pool.Each], section 4.2: the callback runs on
    every endpoint in sequence order; what the Go closure assigns to the
    variables it captures is threaded as the accumulator. *)
Definition Each {A : Type} (f : A -> Endpoint -> A) (p : Pool) (init : A) : A :=
  fold_left f (endpoints p) init.

(** The stale threshold that applies to an endpoint, section 3: its own
    override, and the default when the override is 0. *)
Definition effective_threshold (threshold : Duration) (e : Endpoint) : Duration :=
  if staleThreshold e =? 0 then threshold else staleThreshold e.

(** An endpoint is stale when its stamp is older than the clock less the
    threshold that applies to it. *)
Definition stale (now : Time) (threshold : Duration) (e : Endpoint) : bool :=
  updated_at e <? now - effective_threshold threshold e.

(** Modelled from the spec: [Pool.PruneEndpoints], section 4.2: deletes the
    endpoints whose [updated_at] is older than [now - threshold] and returns
    them; section 3 gives an endpoint a stale-threshold override, 0 for the
    default. [now] is the clock the method reads: it is handed the threshold
    only. *)
Definition PruneEndpoints (now : Time) (threshold : Duration) (p : Pool)
  : Pool * list Endpoint :=
  (with_endpoints p (List.filter (fun e => negb (stale now threshold e)) (endpoints p)),
   List.filter (stale now threshold) (endpoints p)).

(** Modelled from the spec: [Pool.MarkUpdated], section 4.2. *)
Definition MarkUpdated (t : Time) (p : Pool) : Pool :=
  with_endpoints p (List.map (stamp t) (endpoints p)).

(** ** container.Trie *)

(** Modelled from the spec: [container.Trie] is not among the sources.
    Section 3: a node per path segment with an optional pool and a mapping
    from segment to child node. The parent back-reference, used only to
    snip upward, is the recursion of [Delete] and of the prune below. *)
Inductive Trie := mkTrie {
  NodePool : option Pool;
  ChildNodes : gmap string Trie
}.

Definition NewTrie : Trie := mkTrie None ∅.

(** The path of a key: its segments, split on the slash. *)
Definition key_path (k : Uri) : list string := Str.split_slash k.

Fixpoint find_path (path : list string) (t : Trie) : option Pool :=
  match path with
  | [] => NodePool t
  | seg :: rest =>
      match ChildNodes t !! seg with
      | None => None
      | Some child => find_path rest child
      end
  end.

Fixpoint insert_path (path : list string) (p : Pool) (t : Trie) : Trie :=
  match path with
  | [] => mkTrie (Some p) (ChildNodes t)
  | seg :: rest =>
      let child := default NewTrie (ChildNodes t !! seg) in
      mkTrie (NodePool t) (<[seg := insert_path rest p child]> (ChildNodes t))
  end.

(** The snip rule: a node is removable when it has no pool and no child. *)
Definition removable (t : Trie) : bool :=
  match NodePool t with
  | Some _ => false
  | None => bool_decide (ChildNodes t = ∅)
  end.

Fixpoint delete_path (path : list string) (t : Trie) : Trie :=
  match path with
  | [] => mkTrie None (ChildNodes t)
  | seg :: rest =>
      match ChildNodes t !! seg with
      | None => t
      | Some child =>
          let child' := delete_path rest child in
          mkTrie (NodePool t)
                 (if removable child' then delete seg (ChildNodes t)
                  else <[seg := child']> (ChildNodes t))
      end
  end.

(** Modelled from the spec: [Trie.Find], the pool at exactly this key. *)
Definition Find (k : Uri) (t : Trie) : option Pool := find_path (key_path k) t.

(** Modelled from the spec: [Trie.Insert]. *)
Definition Insert (k : Uri) (p : Pool) (t : Trie) : Trie :=
  insert_path (key_path k) p t.

(** Modelled from the spec: [Trie.Delete], section 4.3: deletes the node of
    the key and collapses its empty ancestors. *)
Definition Delete (k : Uri) (t : Trie) : Trie := delete_path (key_path k) t.

(** Modelled from the spec: [Trie.MatchUri], section 4.3: the exact match
    that [Lookup] attempts on each candidate key. *)
Definition MatchUri (k : Uri) (t : Trie) : option Pool := find_path (key_path k) t.

(** [EachNodeWithPool] with a callback that replaces the pool of the node
    and then snips the node: [f] is given the path of the node and returns
    the pool after the callback. A node left without endpoints loses its
    pool, and a child left without pool and without children is dropped
    from its parent. *)
Fixpoint each_pool_snip (f : list string -> Pool -> Pool) (path : list string)
    (t : Trie) : Trie :=
  match t with
  | mkTrie p cs =>
      mkTrie
        (match p with
         | None => None
         | Some pool => let pool' := f path pool in
                        if IsEmpty pool' then None else Some pool'
         end)
        (map_fold (fun seg child kept =>
                     let child' := each_pool_snip f (path ++ [seg]) child in
                     if removable child' then kept else <[seg := child']> kept)
                  ∅ cs)
  end.

(** [EachNodeWithPool] with a callback that only updates the pool. *)
Fixpoint each_pool (f : Pool -> Pool) (t : Trie) : Trie :=
  match t with
  | mkTrie p cs => mkTrie (f <$> p) (each_pool f <$> cs)
  end.

(** [Trie.PoolCount]: the nodes that carry a pool. *)
Fixpoint PoolCount (t : Trie) : nat :=
  match t with
  | mkTrie p cs =>
      ((match p with Some _ => 1 | None => 0 end)
       + map_fold (fun _ child acc => PoolCount child + acc) 0 cs)%nat
  end.

(** [Trie.EndpointCount]: the endpoints of all pools. *)
Fixpoint EndpointCount (t : Trie) : nat :=
  match t with
  | mkTrie p cs =>
      ((match p with Some pool => length (endpoints pool) | None => 0 end)
       + map_fold (fun _ child acc => EndpointCount child + acc) 0 cs)%nat
  end.

(** [Trie.ToPath]: the segments from the root joined by slashes. *)
Fixpoint ToPath (path : list string) : string :=
  match path with
  | [] => EmptyString
  | [seg] => seg
  | seg :: rest => String.append seg (String Str.slash (ToPath rest))
  end.

(** ** Reporter and logger fakes *)

Inductive ReporterCall :=
| CaptureRegistryMessage (e : Endpoint)
| CaptureUnregistryMessage (e : Endpoint)
| CaptureLookupTime (d : Duration)
| CaptureRouteStats (uris : nat) (msSinceLastUpdate : Z)
| CaptureRoutingRequest (e : Endpoint)
| CaptureBadGateway.

Inductive Level := DebugLevel | InfoLevel | ErrorLevel.

Inductive LogValue :=
| VString (s : string)
| VStrings (l : list string)
| VTag (t : ModificationTag)
| VInt (n : Z).

Record LogEntry := mkLog {
  level : Level;
  message : string;
  fields : list (string * LogValue)
}.

Definition logged (msg : string) (l : list LogEntry) : bool :=
  existsb (fun e => String.eqb (message e) msg) l.

(** ** registry.RouteRegistry *)

Inductive PruneStatus := CONNECTED | DISCONNECTED.

Definition PruneStatus_eqb (a b : PruneStatus) : bool :=
  match a, b with
  | CONNECTED, CONNECTED | DISCONNECTED, DISCONNECTED => true
  | _, _ => false
  end.

Record Config := mkConfig {
  PruneStaleDropletsInterval : Duration;
  DropletStaleThreshold : Duration
}.

Record RouteRegistry := mkRegistry {
  logger : list LogEntry;
  byURI : Trie;
  suspendPruning : unit -> bool;
  pruningStatus : PruneStatus;
  pruneStaleDropletsInterval : Duration;
  dropletStaleThreshold : Duration;
  reporter : list ReporterCall;
  ticker : option Duration;
  timeOfLastUpdate : Time;
  routerGroupGUID : string
}.

Definition set_logger (l : list LogEntry) (r : RouteRegistry) : RouteRegistry :=
  mkRegistry l (byURI r) (suspendPruning r) (pruningStatus r)
    (pruneStaleDropletsInterval r) (dropletStaleThreshold r) (reporter r)
    (ticker r) (timeOfLastUpdate r) (routerGroupGUID r).

Definition set_byURI (t : Trie) (r : RouteRegistry) : RouteRegistry :=
  mkRegistry (logger r) t (suspendPruning r) (pruningStatus r)
    (pruneStaleDropletsInterval r) (dropletStaleThreshold r) (reporter r)
    (ticker r) (timeOfLastUpdate r) (routerGroupGUID r).

Definition set_suspendPruning (f : unit -> bool) (r : RouteRegistry) : RouteRegistry :=
  mkRegistry (logger r) (byURI r) f (pruningStatus r)
    (pruneStaleDropletsInterval r) (dropletStaleThreshold r) (reporter r)
    (ticker r) (timeOfLastUpdate r) (routerGroupGUID r).

Definition set_pruningStatus (s : PruneStatus) (r : RouteRegistry) : RouteRegistry :=
  mkRegistry (logger r) (byURI r) (suspendPruning r) s
    (pruneStaleDropletsInterval r) (dropletStaleThreshold r) (reporter r)
    (ticker r) (timeOfLastUpdate r) (routerGroupGUID r).

Definition set_reporter (c : list ReporterCall) (r : RouteRegistry) : RouteRegistry :=
  mkRegistry (logger r) (byURI r) (suspendPruning r) (pruningStatus r)
    (pruneStaleDropletsInterval r) (dropletStaleThreshold r) c
    (ticker r) (timeOfLastUpdate r) (routerGroupGUID r).

Definition set_ticker (k : option Duration) (r : RouteRegistry) : RouteRegistry :=
  mkRegistry (logger r) (byURI r) (suspendPruning r) (pruningStatus r)
    (pruneStaleDropletsInterval r) (dropletStaleThreshold r) (reporter r)
    k (timeOfLastUpdate r) (routerGroupGUID r).

Definition set_timeOfLastUpdate (t : Time) (r : RouteRegistry) : RouteRegistry :=
  mkRegistry (logger r) (byURI r) (suspendPruning r) (pruningStatus r)
    (pruneStaleDropletsInterval r) (dropletStaleThreshold r) (reporter r)
    (ticker r) t (routerGroupGUID r).

Definition log (lvl : Level) (msg : string) (data : list (string * LogValue))
    (r : RouteRegistry) : RouteRegistry :=
  set_logger (logger r ++ [mkLog lvl msg data]) r.

Definition report (c : ReporterCall) (r : RouteRegistry) : RouteRegistry :=
  set_reporter (reporter r ++ [c]) r.

(** registry.go, lines 61-73. The time of the last update is the zero
    [time.Time], the zero [PruneStatus] is [CONNECTED] and no ticker is
    installed. *)
Definition NewRouteRegistry (logger : list LogEntry) (c : Config)
    (reporter : list ReporterCall) (routerGroupGUID : string) : RouteRegistry :=
  {| logger := logger;
     byURI := NewTrie;
     suspendPruning := fun _ => false;
     pruningStatus := CONNECTED;
     pruneStaleDropletsInterval := PruneStaleDropletsInterval c;
     dropletStaleThreshold := DropletStaleThreshold c;
     reporter := reporter;
     ticker := None;
     timeOfLastUpdate := zeroTime;
     routerGroupGUID := routerGroupGUID |}.

(** registry.go, lines 304-317. *)
Definition parseContextPath (uri : Uri) : string :=
  let contextPath :=
    match snd (Str.splitN2_slash (Str.trim_slash uri)) with
    | Some rest => String Str.slash rest
    | None => String Str.slash EmptyString
    end in
  Str.cut_at "?" contextPath.

(** The log fields built by [Register] and [Unregister]. *)
Definition zapData (r : RouteRegistry) (uri : Uri) (endpoint : Endpoint)
  : list (string * LogValue) :=
  let routerGroupGUID :=
    if String.eqb (routerGroupGUID r) "" then "-" else routerGroupGUID r in
  [ ("uri", VString uri);
    ("router-group-guid", VString routerGroupGUID);
    ("backend", VString (CanonicalAddr endpoint));
    ("modification_tag", VTag (ModTag endpoint)) ].

(** registry.go, lines 75-114. [now] is the clock read at call entry (and
    by [Put]). The pool found or created is mutated by [Put] through its
    pointer: it is written back at [routekey]. *)
Definition Register (now : Time) (uri : Uri) (endpoint : Endpoint)
    (r : RouteRegistry) : RouteRegistry :=
  let t := now in
  let routekey := RouteKey uri in
  let '(pool, r) :=
    match Find routekey (byURI r) with
    | Some pool => (pool, r)
    | None =>
        let contextPath := parseContextPath uri in
        let pool := NewPool (Z.quot (dropletStaleThreshold r) 4) contextPath in
        (pool,
         log DebugLevel "uri-added" [("uri", VString routekey)]
           (set_byURI (Insert routekey pool (byURI r)) r))
    end in
  let '(pool, endpointAdded) := Put now endpoint pool in
  let r := set_byURI (Insert routekey pool (byURI r)) r in
  let r := set_timeOfLastUpdate t r in
  let r := report (CaptureRegistryMessage endpoint) r in
  if endpointAdded
  then log DebugLevel "endpoint-registered" (zapData r uri endpoint) r
  else log DebugLevel "endpoint-not-registered" (zapData r uri endpoint) r.

(** registry.go, lines 116-149. *)
Definition Unregister (uri : Uri) (endpoint : Endpoint) (r : RouteRegistry)
  : RouteRegistry :=
  let data := zapData r uri endpoint in
  let uri := RouteKey uri in
  let r :=
    match Find uri (byURI r) with
    | Some pool =>
        let '(pool, endpointRemoved) := Remove endpoint pool in
        let r := set_byURI (Insert uri pool (byURI r)) r in
        let r := if endpointRemoved
                 then log DebugLevel "endpoint-unregistered" data r
                 else log DebugLevel "endpoint-not-unregistered" data r in
        if IsEmpty pool then set_byURI (Delete uri (byURI r)) r else r
    | None => r
    end in
  report (CaptureUnregistryMessage endpoint) r.

(** The loop of [Lookup], registry.go lines 159-162: while no pool is found
    and [NextWildcard] has not failed, take the next wildcard and match it.
    [fuel] bounds the number of turns. *)
Fixpoint lookup_loop (fuel : nat) (t : Trie) (uri : Uri)
    (err : option UriError) (pool : option Pool) : option Pool :=
  match fuel with
  | O => pool
  | S fuel =>
      match pool, err with
      | None, None =>
          let '(uri, err) := NextWildcard uri in
          lookup_loop fuel t uri err (MatchUri uri t)
      | _, _ => pool
      end
  end.

(** registry.go, lines 151-168. [started] and [endLookup] are the two clock
    readings. A key of n characters leaves the loop within n + 1 turns. *)
Definition Lookup (started endLookup : Time) (uri : Uri) (r : RouteRegistry)
  : option Pool * RouteRegistry :=
  let uri := RouteKey uri in
  let pool := MatchUri uri (byURI r) in
  let pool := lookup_loop (S (String.length uri)) (byURI r) uri None pool in
  (pool, report (CaptureLookupTime (Sub endLookup started)) r).

(** The callback of [p.Each] in [LookupWithInstance], lines 180-185. *)
Definition surgical (now : Time) (appID appIndex : string)
    (surgicalPool : option Pool) (e : Endpoint) : option Pool :=
  if String.eqb (ApplicationId e) appID
     && String.eqb (PrivateInstanceIndex e) appIndex
  then Some (fst (Put now e (NewPool 0 "")))
  else surgicalPool.

(** registry.go, lines 170-187. *)
Definition LookupWithInstance (started endLookup now : Time) (uri : Uri)
    (appID appIndex : string) (r : RouteRegistry)
  : option Pool * RouteRegistry :=
  let uri := RouteKey uri in
  let '(p, r) := Lookup started endLookup uri r in
  match p with
  | None => (None, r)
  | Some p => (Each (surgical now appID appIndex) p None, r)
  end.

(** registry.go, lines 218-240: the read-lock accessors. *)
Definition NumUris (r : RouteRegistry) : nat := PoolCount (byURI r).
Definition TimeOfLastUpdate (r : RouteRegistry) : Time := timeOfLastUpdate r.
Definition NumEndpoints (r : RouteRegistry) : nat := EndpointCount (byURI r).

(** registry.go, lines 290-294. *)
Definition SuspendPruning (f : unit -> bool) (r : RouteRegistry) : RouteRegistry :=
  set_suspendPruning f r.

(** registry.go, lines 297-302. *)
Definition freshenRoutes (now : Time) (r : RouteRegistry) : RouteRegistry :=
  set_byURI (each_pool (MarkUpdated now) (byURI r)) r.

(** The [pruned-route] lines of one prune, lines 276-286: one per node whose
    pool lost endpoints, the node before its children. [clock] gives the
    clock [PruneEndpoints] reads at the node of a path. *)
Fixpoint pruned_routes (clock : list string -> Time) (threshold : Duration)
    (guid : string) (path : list string) (t : Trie) : list LogEntry :=
  match t with
  | mkTrie p cs =>
      (match p with
       | None => []
       | Some pool =>
           match snd (PruneEndpoints (clock path) threshold pool) with
           | [] => []
           | pruned =>
               [mkLog InfoLevel "pruned-route"
                  [ ("uri", VString (ToPath path));
                    ("endpoints", VStrings (List.map CanonicalAddr pruned));
                    ("router-group-guid", VString guid) ]]
           end
       end)
      ++ map_fold (fun seg child acc =>
                     pruned_routes clock threshold guid (path ++ [seg]) child ++ acc)
                  [] cs
  end.

(** registry.go, lines 249-288. The clock is read more than once:
    [freshened] is the reading of [freshenRoutes] (line 298), made only
    when the status was DISCONNECTED, and [clock path] is the reading
    [PruneEndpoints] makes afterwards at the node of [path] (line 274). *)
Definition pruneStaleDroplets (freshened : Time) (clock : list string -> Time)
    (r : RouteRegistry) : RouteRegistry :=
  if suspendPruning r tt then
    let r := log InfoLevel "prune-suspended" [] r in
    set_pruningStatus DISCONNECTED r
  else
    let r :=
      if PruneStatus_eqb (pruningStatus r) DISCONNECTED then
        let r := log DebugLevel "prune-unsuspended-refresh-routes-start" [] r in
        let r := freshenRoutes freshened r in
        log DebugLevel "prune-unsuspended-refresh-routes-complete" [] r
      else r in
    let r := set_pruningStatus CONNECTED r in
    let routerGroupGUID :=
      if String.eqb (routerGroupGUID r) "" then "-" else routerGroupGUID r in
    let lines :=
      pruned_routes clock (dropletStaleThreshold r) routerGroupGUID [] (byURI r) in
    let pruned :=
      each_pool_snip
        (fun path pool =>
           fst (PruneEndpoints (clock path) (dropletStaleThreshold r) pool))
        [] (byURI r) in
    set_logger (logger r ++ lines) (set_byURI pruned r).

(** registry.go, lines 189-208: [StartPruningCycle] installs the ticker when
    the interval is positive. *)
Definition StartPruningCycle (r : RouteRegistry) : RouteRegistry :=
  if 0 <? pruneStaleDropletsInterval r
  then set_ticker (Some (pruneStaleDropletsInterval r)) r
  else r.

(** One firing of the ticker, lines 198-203: the prune between its two log
    lines, then the route statistics. [freshened] and [clock] are the
    readings of the prune and [since] is the later reading of
    [time.Since]; the duration, in nanoseconds, is divided by
    [time.Millisecond] and converted to [uint64]. *)
Definition prune_tick (freshened : Time) (clock : list string -> Time)
    (since : Time) (r : RouteRegistry) : RouteRegistry :=
  let r := log InfoLevel "start-pruning-routes" [] r in
  let r := pruneStaleDroplets freshened clock r in
  let r := log InfoLevel "finished-pruning-routes" [] r in
  let msSinceLastUpdate :=
    Z.quot (Sub since (TimeOfLastUpdate r)) 1000000 mod 2 ^ 64 in
  report (CaptureRouteStats (NumUris r) msSinceLastUpdate) r.

(** registry.go, lines 210-216. Stopping leaves the ticker installed. *)
Definition StopPruningCycle (r : RouteRegistry) : RouteRegistry := r.

(** The endpoints held for a trie path: those of its pool, none without. *)
Definition endpoints_at (path : list string) (t : Trie) : list Endpoint :=
  match find_path path t with
  | Some p => endpoints p
  | None => []
  end.

(** Every pool kept in the trie has an endpoint: the owner removes a pool
    that becomes empty. *)
Definition pools_nonempty (t : Trie) : Prop :=
  forall path p, find_path path t = Some p -> IsEmpty p = false.

(** No pool kept in the trie has two endpoints with the same canonical
    address. *)
Definition pools_distinct (t : Trie) : Prop :=
  forall path p, find_path path t = Some p ->
                 List.NoDup (List.map CanonicalAddr (endpoints p)).

(** ** The pool iterator *)

(** Modelled from the spec: the iterator of [route.Pool] is not among the
    sources. Section 4.2: a cursor that advances round-robin over a snapshot
    of the membership and skips the endpoints marked failed; an empty
    membership yields no endpoint. The round-tripper tests serve the single
    endpoint of a pool on each of the three attempts of a request, every one
    of them reported failed: once every endpoint of the snapshot is marked,
    the marks are cleared and the round starts over. *)
Record EndpointIterator := mkIterator {
  snapshot : list Endpoint;
  failed : list nat;
  cursor : nat;
  lastIdx : option nat
}.

Definition Iterator (p : Pool) : EndpointIterator :=
  {| snapshot := endpoints p;
     failed := [];
     cursor := nextIdx p;
     lastIdx := None |}.

Definition marked (i : nat) (failed : list nat) : bool :=
  existsb (Nat.eqb i) failed.

(** The first index not marked failed, from [i] on, within [n] steps. *)
Fixpoint scan (n len : nat) (failed : list nat) (i : nat) : option nat :=
  match n with
  | O => None
  | S n => if marked i failed then scan n len failed (S i mod len)%nat else Some i
  end.

Definition Next (it : EndpointIterator) : option Endpoint * EndpointIterator :=
  let len := length (snapshot it) in
  match len with
  | O => (None, it)
  | S _ =>
      let start := (cursor it mod len)%nat in
      let '(i, marks) :=
        match scan len len (failed it) start with
        | Some i => (i, failed it)
        | None => (start, [])
        end in
      (nth_error (snapshot it) i,
       {| snapshot := snapshot it;
          failed := marks;
          cursor := (S i mod len)%nat;
          lastIdx := Some i |})
  end.

Definition EndpointFailed (it : EndpointIterator) : EndpointIterator :=
  match lastIdx it with
  | None => it
  | Some i =>
      {| snapshot := snapshot it;
         failed := i :: failed it;
         cursor := cursor it;
         lastIdx := lastIdx it |}
  end.

(** ** The proxy round-tripper *)

Module RoundTripper.

(** The errors a transport hands back: [errors.New], [os.SyscallError],
    [net.OpError], and the sentinel [handler.NoEndpointsAvailable]. *)
Inductive Errno := ECONNRESET | ECONNREFUSED | EHOSTUNREACH | ETIMEDOUT.

Inductive error :=
| ErrorString (msg : string)
| SyscallError (syscall : string) (errno : Errno)
| OpError (op : string) (err : error)
| NoEndpointsAvailable.

Definition Errno_message (e : Errno) : string :=
  match e with
  | ECONNRESET => "connection reset by peer"
  | ECONNREFUSED => "connection refused"
  | EHOSTUNREACH => "no route to host"
  | ETIMEDOUT => "connection timed out"
  end.

Fixpoint Error (e : error) : string :=
  match e with
  | ErrorString msg => msg
  | SyscallError syscall errno =>
      String.append syscall (String.append ": " (Errno_message errno))
  | OpError op err => String.append op (String.append ": " (Error err))
  | NoEndpointsAvailable => "No endpoints available"
  end.

Definition is_conn_reset (e : error) : bool :=
  match e with
  | SyscallError syscall ECONNRESET => String.eqb syscall "read"
  | _ => false
  end.

(** Modelled from the spec: the classification of section 4.4: a dial
    failure ([op] is [dial]) and a connection reset by peer on read are
    retryable; any other error is not. *)
Definition retryableError (e : error) : bool :=
  match e with
  | OpError op err => String.eqb op "dial" || is_conn_reset err
  | _ => false
  end.

(** HTTP headers, one value per name. *)
Definition Header := list (string * string).

Definition header_get (name : string) (h : Header) : string :=
  match List.find (fun kv => String.eqb (fst kv) name) h with
  | Some kv => snd kv
  | None => EmptyString
  end.

Definition header_del (name : string) (h : Header) : Header :=
  List.filter (fun kv => negb (String.eqb (fst kv) name)) h.

Definition header_set (name value : string) (h : Header) : Header :=
  (name, value) :: header_del name h.

Definition VcapTraceHeader : string := "X-Vcap-Trace".
Definition VcapRouterHeader : string := "X-Vcap-Router".
Definition VcapBackendHeader : string := "X-Vcap-Backend".
Definition CfRouteEndpointHeader : string := "X-Cf-RouteEndpoint".
Definition CfRouterError : string := "X-Cf-RouterError".
Definition StatusBadGateway : Z := 502.
Definition StatusOK : Z := 200.

(** Modelled from the spec: the constant is project-defined (section 6);
    this is the text of the gorouter. *)
Definition BadGatewayMessage : string :=
  "502 Bad Gateway: Registered endpoint failed to handle the request.".

(** Modelled from the spec: [handler.MaxRetries], the retry limit of
    section 4.4. *)
Definition MaxRetries : nat := 3.

Record URL := mkURL { Scheme : string; UrlHost : string; Path : string }.

Record Response := mkResponse {
  StatusCode : Z;
  RespHeader : Header
}.

(** [httptest.ResponseRecorder] behind the proxy response writer. *)
Record ResponseWriter := mkWriter {
  Code : Z;
  HeaderMap : Header;
  Body : string
}.

Definition NewRecorder : ResponseWriter :=
  {| Code := StatusOK; HeaderMap := []; Body := EmptyString |}.

Record AccessLogRecord := mkRecord {
  LoggedStatusCode : Z;
  RouteEndpoint : option Endpoint
}.

(** The values of the request context, by key. *)
Record Context := mkContext {
  ctxRoutePool : option Pool;
  ctxProxyResponseWriter : option ResponseWriter;
  ctxAccessLogRecord : option AccessLogRecord;
  ctxRouteServiceURL : option URL
}.

Record Request := mkRequest {
  Method : string;
  ReqURL : URL;
  Host : string;
  ReqHeader : Header;
  Ctx : Context
}.

(** The underlying transport: what its [n]-th call (from 0) returns for
    the request it is handed. *)
Definition Transport := nat -> Request -> option Response * option error.

Record ProxyRoundTripper := mkRoundTripper {
  transport : Transport;
  traceKey : string;
  routerIP : string
}.

(** What one [RoundTrip] leaves behind: the requests the transport saw,
    the calls of the reporter and the lines of the logger. *)
Record Effects := mkEffects {
  transportCalls : list Request;
  reporterCalls : list ReporterCall;
  logLines : list LogEntry
}.

Definition no_effects : Effects := mkEffects [] [] [].

(** The variables of the retry loop. *)
Record LoopState := mkLoop {
  iter : EndpointIterator;
  endpoint : option Endpoint;
  res : option Response;
  err : option error;
  effects : Effects
}.

Definition with_url (u : URL) (request : Request) : Request :=
  mkRequest (Method request) u (Host request) (ReqHeader request) (Ctx request).

(** Step b of the normal mode: the request is aimed at the endpoint. *)
Definition to_endpoint (e : Endpoint) (request : Request) : Request :=
  mkRequest (Method request)
    (mkURL (Scheme (ReqURL request)) (CanonicalAddr e) (Path (ReqURL request)))
    (CanonicalAddr e) (ReqHeader request) (Ctx request).

Definition error_line (msg : string) (e : error) : LogEntry :=
  mkLog ErrorLevel msg [("error", VString (Error e))].

Definition call_transport (rt : ProxyRoundTripper) (request : Request)
    (fx : Effects) : option Response * option error * Effects :=
  let '(res, err) := transport rt (length (transportCalls fx)) request in
  (res, err,
   mkEffects (transportCalls fx ++ [request]) (reporterCalls fx) (logLines fx)).

Definition add_report (c : ReporterCall) (fx : Effects) : Effects :=
  mkEffects (transportCalls fx) (reporterCalls fx ++ [c]) (logLines fx).

Definition add_line (l : LogEntry) (fx : Effects) : Effects :=
  mkEffects (transportCalls fx) (reporterCalls fx) (logLines fx ++ [l]).

(** Modelled from the spec: the retry loop of section 4.4, at most [n]
    more attempts. Normal mode (no route-service URL): steps a to f.
    Route-service mode: the request goes to the route-service URL, the
    pool is not iterated and no routing request is captured. *)
Fixpoint retry_loop (n : nat) (rt : ProxyRoundTripper)
    (routeServiceURL : option URL) (request : Request) (st : LoopState)
  : LoopState :=
  match n with
  | O => st
  | S n =>
      match routeServiceURL with
      | None =>
          let '(ep, it) := Next (iter st) in
          match ep with
          | None =>
              mkLoop it None (res st) (Some NoEndpointsAvailable) (effects st)
          | Some e =>
              let fx := add_report (CaptureRoutingRequest e) (effects st) in
              let '(res, err, fx) := call_transport rt (to_endpoint e request) fx in
              match err with
              | None => mkLoop it (Some e) res None fx
              | Some failure =>
                  if retryableError failure then
                    let fx := add_line (error_line "backend-endpoint-failed" failure) fx in
                    retry_loop n rt routeServiceURL request
                      (mkLoop (EndpointFailed it) (Some e) res err fx)
                  else mkLoop it (Some e) res err fx
              end
          end
      | Some url =>
          let '(res, err, fx) := call_transport rt (with_url url request) (effects st) in
          match err with
          | None =>
              let fx :=
                match res with
                | Some r =>
                    if (StatusCode r <? 200) || (300 <=? StatusCode r)
                    then add_line (mkLog InfoLevel "response"
                                     [("status-code", VInt (StatusCode r))]) fx
                    else fx
                | None => fx
                end in
              mkLoop (iter st) (endpoint st) res None fx
          | Some failure =>
              if retryableError failure then
                let fx := add_line (error_line "route-service-connection-failed" failure) fx in
                retry_loop n rt routeServiceURL request
                  (mkLoop (iter st) (endpoint st) res err fx)
              else mkLoop (iter st) (endpoint st) res err fx
          end
      end
  end.

(** Modelled from the spec: the canonical 502 of sections 4.4 and 6. *)
Definition write_bad_gateway (rw : ResponseWriter) : ResponseWriter :=
  {| Code := StatusBadGateway;
     HeaderMap := header_set CfRouterError "endpoint_failure" (HeaderMap rw);
     Body := String.append (Body rw) BadGatewayMessage |}.

(** Modelled from the spec: the trace headers of section 4.4. *)
Definition setTraceHeaders (rt : ProxyRoundTripper) (request : Request)
    (e : option Endpoint) (res : option Response) : option Response :=
  match res, e with
  | Some r, Some e =>
      if String.eqb (header_get VcapTraceHeader (ReqHeader request)) (traceKey rt)
      then Some (mkResponse (StatusCode r)
                   (header_set VcapRouterHeader (routerIP rt)
                      (header_set VcapBackendHeader (CanonicalAddr e)
                         (header_set CfRouteEndpointHeader (CanonicalAddr e)
                            (RespHeader r)))))
      else res
  | _, _ => res
  end.

(** What [RoundTrip] returns, and the objects of the context after it. *)
Record Outcome := mkOutcome {
  returned : option Response;
  failure : option error;
  writer : option ResponseWriter;
  record : option AccessLogRecord;
  after : Effects
}.

Definition missing (key : string) (request : Request) : Outcome :=
  {| returned := None;
     failure := Some (ErrorString (String.append key " not set on context"));
     writer := ctxProxyResponseWriter (Ctx request);
     record := ctxAccessLogRecord (Ctx request);
     after := no_effects |}.

(** Modelled from the spec: [ProxyRoundTripper.RoundTrip] is not among the
    sources (its test-suite is). Sections 4.4 and 6: the three required
    context keys are checked in order; then the retry loop; then either
    the canonical 502 and the last error, or the response. *)
Definition RoundTrip (rt : ProxyRoundTripper) (request : Request) : Outcome :=
  match ctxRoutePool (Ctx request) with
  | None => missing "RoutePool" request
  | Some routePool =>
      match ctxProxyResponseWriter (Ctx request) with
      | None => missing "ProxyResponseWriter" request
      | Some rw =>
          match ctxAccessLogRecord (Ctx request) with
          | None => missing "AccessLogRecord" request
          | Some alr =>
              let st :=
                retry_loop MaxRetries rt (ctxRouteServiceURL (Ctx request)) request
                  (mkLoop (Iterator routePool) None None None no_effects) in
              match err st with
              | Some failure =>
                  {| returned := None;
                     failure := Some failure;
                     writer := Some (write_bad_gateway rw);
                     record := Some (mkRecord StatusBadGateway (endpoint st));
                     after := add_report CaptureBadGateway (effects st) |}
              | None =>
                  {| returned := setTraceHeaders rt request (endpoint st) (res st);
                     failure := None;
                     writer := Some rw;
                     record := Some (mkRecord (LoggedStatusCode alr) (endpoint st));
                     after := effects st |}
              end
          end
      end
  end.

(** The canonical 502 as a test reads it off the recorder. *)
Definition bad_gateway_written (rw : ResponseWriter) : Prop :=
  Code rw = StatusBadGateway
  /\ header_get CfRouterError (HeaderMap rw) = "endpoint_failure"
  /\ Str.Contains (Body rw) BadGatewayMessage.

End RoundTripper.

(** ** Calls on the registry *)

Inductive Call :=
| CallRegister (now : Time) (uri : Uri) (endpoint : Endpoint)
| CallUnregister (uri : Uri) (endpoint : Endpoint)
| CallLookup (started endLookup : Time) (uri : Uri)
| CallLookupWithInstance (started endLookup now : Time) (uri : Uri)
    (appID appIndex : string)
| CallSuspendPruning (f : unit -> bool)
| CallStartPruningCycle
| CallPruneTick (freshened : Time) (clock : list string -> Time) (since : Time).

Definition call (c : Call) (r : RouteRegistry) : RouteRegistry :=
  match c with
  | CallRegister now uri endpoint => Register now uri endpoint r
  | CallUnregister uri endpoint => Unregister uri endpoint r
  | CallLookup started endLookup uri => snd (Lookup started endLookup uri r)
  | CallLookupWithInstance started endLookup now uri appID appIndex =>
      snd (LookupWithInstance started endLookup now uri appID appIndex r)
  | CallSuspendPruning f => SuspendPruning f r
  | CallStartPruningCycle => StartPruningCycle r
  | CallPruneTick freshened clock since => prune_tick freshened clock since r
  end.

Definition run (calls : list Call) (r : RouteRegistry) : RouteRegistry :=
  fold_left (fun r c => call c r) calls r.

(** A call that is neither a prune tick nor an [Unregister] of the endpoint
    (by its canonical address) at the route key of [uri]. *)
Definition keeps (uri : Uri) (endpoint : Endpoint) (c : Call) : bool :=
  match c with
  | CallUnregister uri' endpoint' =>
      negb (String.eqb (RouteKey uri') (RouteKey uri) && same_addr endpoint' endpoint)
  | CallPruneTick _ _ _ => false
  | _ => true
  end.

(** The matching order of [Lookup] from a key on: the pool of the first
    candidate that matches, the candidates being the key and its successive
    wildcards; no pool when the wildcards run out first. *)
Inductive LookupOrder (t : Trie) : Uri -> option Pool -> Prop :=
| Lookup_match k p :
    MatchUri k t = Some p -> LookupOrder t k (Some p)
| Lookup_next k k' found :
    MatchUri k t = None -> NextWildcard k = (k', None) ->
    LookupOrder t k' found -> LookupOrder t k found
| Lookup_exhausted k k' :
    MatchUri k t = None -> NextWildcard k = (k', Some NoFallback) ->
    LookupOrder t k None.

(** The endpoints of a pool with this application id and instance index. *)
Definition instances (appID appIndex : string) (p : Pool) : list Endpoint :=
  List.filter (fun e => String.eqb (ApplicationId e) appID
                        && String.eqb (PrivateInstanceIndex e) appIndex)
              (endpoints p).

(** A pool holds an address when one of its endpoints has it. *)
Definition holds (addr : string) (p : Pool) : Prop :=
  exists x, In x (endpoints p) /\ CanonicalAddr x = addr.

(** The route key has a pool that holds the address. *)
Definition registered (key : Uri) (addr : string) (r : RouteRegistry) : Prop :=
  exists p, Find key (byURI r) = Some p /\ holds addr p.

(** The pool [LookupWithInstance] builds around one endpoint. *)
Definition surgical_pool (now : Time) (e : Endpoint) : Pool :=
  {| contextPath := ""; retryAfterFailure := 0;
     endpoints := [stamp now e]; nextIdx := 0 |}.

(** ** What the recording fakes are asked *)

(** [CaptureRoutingRequestArgsForCall]: the endpoints of the routing
    requests captured, in call order. *)
Definition routing_requests (calls : list ReporterCall) : list Endpoint :=
  flat_map (fun c => match c with CaptureRoutingRequest e => [e] | _ => [] end) calls.

(** [CaptureBadGatewayCallCount]. *)
Definition bad_gateways (calls : list ReporterCall) : nat :=
  length (List.filter (fun c => match c with CaptureBadGateway => true | _ => false end)
                      calls).

(** ** Values of the test-suites *)

Module Sample.

(** [route.NewEndpoint(appId, host, port, id, index, ...)] with no tags,
    no stale-threshold override and the zero modification tag. *)
Definition new_endpoint (appId addr index : string) (updated : Time) : Endpoint :=
  {| CanonicalAddr := addr;
     ApplicationId := appId;
     PrivateInstanceIndex := index;
     PrivateInstanceId := "id";
     Tags := [];
     staleThreshold := 0;
     ModTag := mkTag "" 0;
     updated_at := updated |}.

Definition endpoint : Endpoint := new_endpoint "appId" "1.1.1.1:9090" "1" 0.

(** A registry with a stale threshold of 10 and no prune interval. *)
Definition registry : RouteRegistry :=
  NewRouteRegistry [] (mkConfig 0 10) [] "".

(** Two instances registered at [foo.com] with the same application id
    and the same instance index. *)
Definition twins : RouteRegistry :=
  Register 2 "foo.com" (new_endpoint "app" "10.0.0.2:80" "0" 0)
    (Register 1 "foo.com" (new_endpoint "app" "10.0.0.1:80" "0" 0) registry).

(** One endpoint registered at [foo.com] at time 0. *)
Definition single : RouteRegistry := Register 0 "foo.com" endpoint registry.

(** Another endpoint, never registered at [foo.com]. *)
Definition other : Endpoint := new_endpoint "app" "10.0.0.1:80" "0" 0.





(** One endpoint registered at a uri that ends in two slashes. *)
Definition slashes : RouteRegistry := Register 0 "a/b//" endpoint registry.

Definition routePool : Pool :=
  fst (Put 0 endpoint (NewPool 1000000000 "")).

Definition emptyPool : Pool := fst (Remove endpoint routePool).

Import RoundTripper.

Definition context (pool : Pool) (routeService : option URL) : Context :=
  {| ctxRoutePool := Some pool;
     ctxProxyResponseWriter := Some NewRecorder;
     ctxAccessLogRecord := Some (mkRecord 0 None);
     ctxRouteServiceURL := routeService |}.

(** [test_util.NewRequest("GET", "myapp.com", "/", nil)], scheme http. *)
Definition request (ctx : Context) : Request :=
  {| Method := "GET";
     ReqURL := mkURL "http" "myapp.com" "/";
     Host := "myapp.com";
     ReqHeader := [];
     Ctx := ctx |}.

Definition no_context : Context := mkContext None None None None.

Definition routeServiceURL : URL := mkURL "" "" "foo.com".

Definition dialError : error := OpError "dial" (ErrorString "error").

Definition connResetError : error := OpError "read" (SyscallError "read" ECONNRESET).

(** [&http.Response{StatusCode: http.StatusTeapot}]. *)
Definition teapot : Response := mkResponse 418 [].

(** The stub of the test-suite whose first call fails with the dial error
    and whose later calls succeed without response. *)
Definition firstFails : Transport :=
  fun n _ => match n with O => (None, Some dialError) | S _ => (None, None) end.

(** The request of the test-suite with the trace header set. *)
Definition traced (value : string) (ctx : Context) : Request :=
  {| Method := "GET";
     ReqURL := mkURL "http" "myapp.com" "/";
     Host := "myapp.com";
     ReqHeader := [(VcapTraceHeader, value)];
     Ctx := ctx |}.

Definition roundTripper (t : Transport) : ProxyRoundTripper :=
  {| transport := t; traceKey := "my_trace_key"; routerIP := "127.0.0.1" |}.

(** [transport.RoundTripReturns(res, err)]. *)
Definition returns (res : option Response) (err : option error) : Transport :=
  fun _ _ => (res, err).

End Sample.

(** * Properties *)

(** ** Keys and wildcards *)

Lemma before_last_shorter c s p :
  Str.before_last c s = Some p -> (String.length p < String.length s)%nat.
Proof.
  revert p. induction s as [|x r IH]; intros p H; simpl in H; [discriminate|].
  destruct (Str.before_last c r) as [q|] eqn:E.
  - injection H as <-. simpl. specialize (IH q eq_refl). lia.
  - destruct (Ascii.eqb x c); [|discriminate].
    injection H as <-. simpl. lia.
Qed.

Lemma from_first_shape c s d :
  Str.from_first c s = Some d ->
  exists d', d = String c d' /\ (String.length d' < String.length s)%nat.
Proof.
  induction s as [|x r IH]; simpl; intros H; [discriminate|].
  destruct (Ascii.eqb x c) eqn:E.
  - apply Ascii.eqb_eq in E. subst x. injection H as <-.
    exists r. split; [reflexivity|simpl; lia].
  - destruct (IH H) as (d' & -> & Hlen). exists d'. split; [reflexivity|lia].
Qed.

Lemma trim_wildcard_le s :
  (String.length (Str.trim_wildcard s) <= String.length s)%nat.
Proof.
  destruct s as [|x [|y r]]; simpl; try lia.
  destruct (Ascii.eqb x Str.star && Ascii.eqb y Str.dot); simpl; lia.
Qed.

Lemma wildcard_rank_le k : (wildcard_rank k <= String.length k)%nat.
Proof. apply trim_wildcard_le. Qed.

Lemma before_last_rank k p :
  Str.before_last Str.slash k = Some p -> (wildcard_rank p < wildcard_rank k)%nat.
Proof.
  unfold wildcard_rank. intros H.
  destruct k as [|x [|y r]].
  - discriminate.
  - simpl in H. destruct (Ascii.eqb x Str.slash); [|discriminate].
    injection H as <-. simpl. lia.
  - cbn [Str.trim_wildcard].
    destruct (Ascii.eqb x Str.star && Ascii.eqb y Str.dot) eqn:E.
    + apply andb_true_iff in E as [Ex Ey].
      apply Ascii.eqb_eq in Ex, Ey. subst x y.
      cbn [Str.before_last] in H.
      destruct (Str.before_last Str.slash r) as [q|] eqn:Eq.
      * injection H as <-. cbn.
        apply before_last_shorter in Eq. exact Eq.
      * cbn in H. discriminate.
    + pose proof (before_last_shorter _ _ _ H) as Hlt.
      pose proof (trim_wildcard_le p). lia.
Qed.

(** A successful [NextWildcard] lowers the rank of the key; a failed one
    hands the key back. *)
Lemma NextWildcard_rank k k' :
  NextWildcard k = (k', None) -> (wildcard_rank k' < wildcard_rank k)%nat.
Proof.
  unfold NextWildcard. intros H.
  destruct (Str.before_last Str.slash k) as [p|] eqn:Ep.
  - injection H as <-. now apply before_last_rank.
  - destruct (Str.from_first Str.dot (Str.trim_wildcard k)) as [d|] eqn:Ed;
      [|discriminate].
    injection H as <-.
    apply from_first_shape in Ed as (d' & -> & Hlen).
    unfold wildcard_rank at 1. cbn. unfold wildcard_rank. lia.
Qed.

Lemma NextWildcard_exhausted k k' e :
  NextWildcard k = (k', Some e) -> k' = k /\ e = NoFallback.
Proof.
  unfold NextWildcard. intros H.
  destruct (Str.before_last Str.slash k); [discriminate|].
  destruct (Str.from_first Str.dot (Str.trim_wildcard k)); [discriminate|].
  destruct e. inversion H. split; reflexivity.
Qed.

Lemma lookup_loop_done fuel t uri err pool :
  pool <> None \/ err <> None -> lookup_loop fuel t uri err pool = pool.
Proof.
  intros H. destruct fuel; [reflexivity|]. simpl.
  destruct pool; [reflexivity|]. destruct err; [reflexivity|].
  destruct H as [H|H]; congruence.
Qed.

Lemma lookup_loop_order t fuel k :
  (wildcard_rank k < fuel)%nat ->
  LookupOrder t k (lookup_loop fuel t k None (MatchUri k t)).
Proof.
  revert k. induction fuel as [|fuel IH]; intros k Hfuel; [lia|].
  destruct (MatchUri k t) as [p|] eqn:Em.
  - simpl. now apply Lookup_match.
  - simpl. destruct (NextWildcard k) as [k' [e|]] eqn:En.
    + destruct (NextWildcard_exhausted _ _ _ En) as [-> ->].
      rewrite lookup_loop_done by (right; discriminate).
      rewrite Em. now apply Lookup_exhausted with (k' := k).
    + apply Lookup_next with (k' := k'); [assumption..|].
      apply IH. apply NextWildcard_rank in En. lia.
Qed.

(** The matching order determines the result. *)
Lemma LookupOrder_functional t k a b :
  LookupOrder t k a -> LookupOrder t k b -> a = b.
Proof.
  intros Ha. revert b. induction Ha; intros b Hb; inversion Hb; subst; try congruence.
  - apply IHHa. congruence.
Qed.

(** C4. For every uri, [Lookup] first matches the normalized route key with
    [MatchUri]; while no pool is found it applies [NextWildcard] to the key
    and matches again, and it returns the first pool found; when
    [NextWildcard] fails with [NoFallback] before any match, it returns no
    pool. The loop always ends: the result is a value of the function. *)
Theorem Lookup_matching_order started endLookup uri r :
  LookupOrder (byURI r) (RouteKey uri) (fst (Lookup started endLookup uri r)).
Proof.
  unfold Lookup. cbn [fst].
  apply lookup_loop_order.
  pose proof (wildcard_rank_le (RouteKey uri)). lia.
Qed.

(** [Lookup] reads the registry: only the reporter hears of it. *)
Lemma Lookup_registry started endLookup uri r :
  snd (Lookup started endLookup uri r)
  = report (CaptureLookupTime (Sub endLookup started)) r.
Proof. reflexivity. Qed.

(** ** LookupWithInstance *)

Lemma Put_NewPool now e :
  fst (Put now e (NewPool 0 "")) = surgical_pool now e.
Proof. reflexivity. Qed.

Lemma last_cons_some {A} (x : A) l y :
  last l = Some y -> last (x :: l) = Some y.
Proof. destruct l; [discriminate|]. intros H. exact H. Qed.

Lemma Each_surgical now appID appIndex es acc :
  fold_left (surgical now appID appIndex) es acc
  = match last (List.filter
                  (fun e => String.eqb (ApplicationId e) appID
                            && String.eqb (PrivateInstanceIndex e) appIndex) es) with
    | Some e => Some (surgical_pool now e)
    | None => acc
    end.
Proof.
  revert acc. induction es as [|x es IH]; intros acc; [reflexivity|].
  cbn [fold_left List.filter]. rewrite IH. unfold surgical.
  destruct (String.eqb (ApplicationId x) appID
            && String.eqb (PrivateInstanceIndex x) appIndex).
  - destruct (last (List.filter _ es)) as [y|] eqn:E.
    + now rewrite (last_cons_some x _ y E).
    + apply last_None in E. rewrite E. now rewrite Put_NewPool.
  - reflexivity.
Qed.

Lemma LookupWithInstance_byURI started endLookup now uri appID appIndex r :
  byURI (snd (LookupWithInstance started endLookup now uri appID appIndex r))
  = byURI r.
Proof.
  unfold LookupWithInstance.
  destruct (Lookup started endLookup (RouteKey uri) r) as [p r'] eqn:E.
  assert (Hr : byURI r' = byURI r).
  { pose proof (Lookup_registry started endLookup (RouteKey uri) r) as H.
    rewrite E in H. cbn in H. now subst r'. }
  destruct p; exact Hr.
Qed.

(** C1, as the code has it. [LookupWithInstance] looks the normalized uri
    up; it returns no pool when [Lookup] finds none or when no endpoint of
    the pool found has the application id and the instance index; otherwise
    it returns a pool built for the call ([NewPool(0, "")]) that holds one
    endpoint, the last one of the pool found that has them. The trie is
    left as it was: the pool returned is not stored. *)
Theorem LookupWithInstance_last_instance started endLookup now uri appID appIndex r :
  fst (LookupWithInstance started endLookup now uri appID appIndex r)
  = match fst (Lookup started endLookup (RouteKey uri) r) with
    | None => None
    | Some p =>
        match last (instances appID appIndex p) with
        | None => None
        | Some e => Some (surgical_pool now e)
        end
    end
  /\ byURI (snd (LookupWithInstance started endLookup now uri appID appIndex r))
     = byURI r.
Proof.
  split; [|apply LookupWithInstance_byURI].
  unfold LookupWithInstance.
  destruct (Lookup started endLookup (RouteKey uri) r) as [p r'] eqn:E.
  cbn [fst]. destruct p as [p|]; cbn [fst]; [|reflexivity].
  unfold Each, instances. apply Each_surgical.
Qed.

(** ** Register and the time of the last update *)

Lemma timeOfLastUpdate_log lvl msg data r :
  timeOfLastUpdate (log lvl msg data r) = timeOfLastUpdate r.
Proof. reflexivity. Qed.

(** C10. Every [Register] sets the time of the last update to the clock read
    at call entry, whatever [Pool.Put] answers: the time advances also when
    the registration is ignored. *)
Theorem Register_timeOfLastUpdate now uri endpoint r :
  TimeOfLastUpdate (Register now uri endpoint r) = now.
Proof.
  unfold Register, TimeOfLastUpdate.
  destruct (Find (RouteKey uri) (byURI r)) as [pool|];
    match goal with
    | |- context [Put now endpoint ?p] => destruct (Put now endpoint p) as [pool' added]
    end;
    destruct added; reflexivity.
Qed.

(** ** The trie *)

Lemma find_insert_same path pool t :
  find_path path (insert_path path pool t) = Some pool.
Proof.
  revert t. induction path as [|seg rest IH]; intros t; [reflexivity|].
  cbn [insert_path find_path ChildNodes]. rewrite lookup_insert_eq. apply IH.
Qed.

Lemma find_NewTrie path : find_path path NewTrie = None.
Proof. destruct path; [reflexivity|]. cbn. now rewrite lookup_empty. Qed.

Lemma find_insert_other path q pool t :
  q <> path -> find_path q (insert_path path pool t) = find_path q t.
Proof.
  revert q t. induction path as [|seg rest IH]; intros q t Hq.
  - destruct q as [|s qs]; [congruence|]. reflexivity.
  - destruct q as [|s qs]; [reflexivity|].
    cbn [insert_path find_path ChildNodes].
    destruct (decide (seg = s)) as [->|Hne].
    + rewrite lookup_insert_eq. rewrite IH by congruence.
      destruct (ChildNodes t !! s); [reflexivity|]. apply find_NewTrie.
    + now rewrite lookup_insert_ne.
Qed.

Lemma insert_path_id path pool t :
  find_path path t = Some pool -> insert_path path pool t = t.
Proof.
  revert t. induction path as [|seg rest IH]; intros [p cs] H.
  - cbn in *. now subst.
  - cbn [insert_path find_path ChildNodes NodePool] in *.
    destruct (cs !! seg) as [c|] eqn:E; [|discriminate].
    cbn [from_option id]. rewrite (IH c H). f_equal. now apply insert_id.
Qed.

Lemma removable_find path t : removable t = true -> find_path path t = None.
Proof.
  unfold removable. destruct t as [p cs]; cbn. destruct p; [discriminate|].
  intros H. apply bool_decide_eq_true in H. subst cs.
  destruct path; [reflexivity|]. cbn. now rewrite lookup_empty.
Qed.

Lemma find_delete_same path t : find_path path (delete_path path t) = None.
Proof.
  revert t. induction path as [|seg rest IH]; intros t; [reflexivity|].
  cbn [delete_path]. destruct (ChildNodes t !! seg) as [c|] eqn:E.
  - cbn [find_path ChildNodes].
    destruct (removable (delete_path rest c)).
    + now rewrite lookup_delete_eq.
    + rewrite lookup_insert_eq. apply IH.
  - cbn [find_path]. now rewrite E.
Qed.

Lemma find_delete_other path q t :
  q <> path -> find_path q (delete_path path t) = find_path q t.
Proof.
  revert q t. induction path as [|seg rest IH]; intros q t Hq.
  - destruct q as [|s qs]; [congruence|]. reflexivity.
  - cbn [delete_path]. destruct (ChildNodes t !! seg) as [c|] eqn:E; [|reflexivity].
    destruct q as [|s qs]; [reflexivity|].
    cbn [find_path ChildNodes].
    destruct (decide (seg = s)) as [->|Hne].
    + assert (Hqs : qs <> rest) by congruence.
      rewrite E. specialize (IH qs c Hqs).
      destruct (removable (delete_path rest c)) eqn:R.
      * rewrite lookup_delete_eq. rewrite <- IH. symmetry. now apply removable_find.
      * rewrite lookup_insert_eq. exact IH.
    + destruct (removable (delete_path rest c)).
      * now rewrite lookup_delete_ne.
      * now rewrite lookup_insert_ne.
Qed.

Lemma find_each_pool f path t :
  find_path path (each_pool f t) = f <$> find_path path t.
Proof.
  revert t. induction path as [|seg rest IH]; intros [p cs]; [reflexivity|].
  cbn [each_pool find_path ChildNodes]. rewrite lookup_fmap.
  destruct (cs !! seg) as [c|]; cbn; [apply IH|reflexivity].
Qed.

(** The children that the snip keeps: those that still hold something. *)
Lemma snip_children_lookup (g : string -> Trie -> Trie) (cs : gmap string Trie) seg :
  map_fold (fun seg child (kept : gmap string Trie) =>
              let child' := g seg child in
              if removable child' then kept else <[seg := child']> kept) ∅ cs !! seg
  = match cs !! seg with
    | Some child => if removable (g seg child) then None else Some (g seg child)
    | None => None
    end.
Proof.
  revert seg.
  apply (map_fold_weak_ind
           (fun kept (m : gmap string Trie) =>
              forall seg,
                kept !! seg
                = match m !! seg with
                  | Some child =>
                      if removable (g seg child) then None else Some (g seg child)
                  | None => None
                  end)).
  - intros seg. now rewrite !lookup_empty.
  - intros i x m kept Hi IH seg. cbn zeta.
    destruct (decide (seg = i)) as [->|Hne].
    + rewrite lookup_insert_eq.
      destruct (removable (g i x)).
      * now rewrite IH, Hi.
      * now rewrite lookup_insert_eq.
    + rewrite lookup_insert_ne by congruence.
      destruct (removable (g i x)).
      * apply IH.
      * rewrite lookup_insert_ne by congruence. apply IH.
Qed.

Lemma find_each_pool_snip f q : forall path t,
  find_path q (each_pool_snip f path t)
  = match find_path q t with
    | Some pool =>
        if IsEmpty (f (path ++ q) pool) then None else Some (f (path ++ q) pool)
    | None => None
    end.
Proof.
  induction q as [|seg rest IH]; intros path [p cs].
  - cbn [each_pool_snip find_path NodePool]. rewrite app_nil_r.
    destruct p; reflexivity.
  - cbn [each_pool_snip find_path ChildNodes].
    rewrite (snip_children_lookup (fun seg child =>
                                     each_pool_snip f (path ++ [seg]) child)).
    destruct (cs !! seg) as [c|]; [|reflexivity].
    specialize (IH (path ++ [seg]) c). rewrite <- app_assoc in IH. cbn [app] in IH.
    destruct (removable (each_pool_snip f (path ++ [seg]) c)) eqn:R.
    + rewrite <- IH. symmetry. now apply removable_find.
    + exact IH.
Qed.

Lemma split_slash_cons s : exists seg segs, Str.split_slash s = seg :: segs.
Proof.
  destruct s as [|x r]; cbn; [eauto|].
  destruct (Ascii.eqb x Str.slash); [eauto|].
  destruct (Str.split_slash r); eauto.
Qed.

Lemma ToPath_cons_char x seg segs :
  ToPath (String x seg :: segs) = String x (ToPath (seg :: segs)).
Proof. destruct segs; reflexivity. Qed.

(** Joining the segments of a key gives the key back: two keys with the
    same path are the same key. *)
Lemma ToPath_split_slash s : ToPath (Str.split_slash s) = s.
Proof.
  induction s as [|x r IH]; [reflexivity|].
  cbn [Str.split_slash]. destruct (Ascii.eqb x Str.slash) eqn:E.
  - apply Ascii.eqb_eq in E. subst x.
    destruct (split_slash_cons r) as (seg & segs & Hr).
    rewrite Hr in *. cbn [ToPath]. cbn. now rewrite <- IH.
  - destruct (split_slash_cons r) as (seg & segs & Hr).
    rewrite Hr in *. rewrite ToPath_cons_char. now rewrite IH.
Qed.

Lemma key_path_inj k k' : key_path k = key_path k' -> k = k'.
Proof.
  unfold key_path. intros H.
  rewrite <- (ToPath_split_slash k), <- (ToPath_split_slash k'). now rewrite H.
Qed.

Lemma Find_Insert_same k pool t : Find k (Insert k pool t) = Some pool.
Proof. apply find_insert_same. Qed.

Lemma Find_Insert_other k k' pool t :
  k' <> k -> Find k' (Insert k pool t) = Find k' t.
Proof.
  intros H. apply find_insert_other. intros E. apply H. now apply key_path_inj.
Qed.

Lemma Find_Delete_other k k' t : k' <> k -> Find k' (Delete k t) = Find k' t.
Proof.
  intros H. apply find_delete_other. intros E. apply H. now apply key_path_inj.
Qed.

(** ** Register, Unregister and what Lookup finds *)

Lemma put_endpoint_holds now e es :
  exists x, In x (fst (put_endpoint now e es)) /\ CanonicalAddr x = CanonicalAddr e.
Proof.
  induction es as [|y tl IH]; cbn.
  - exists (stamp now e). split; [now left|reflexivity].
  - destruct (same_addr y e) eqn:E.
    + destruct (SucceededBy (ModTag y) (ModTag e)); cbn.
      * exists (stamp now e). split; [now left|reflexivity].
      * exists y. split; [now left|]. now apply String.eqb_eq in E.
    + destruct (put_endpoint now e tl) as [tl' added]. cbn in *.
      destruct IH as (x & Hx & Ha). exists x. split; [now right|exact Ha].
Qed.

Lemma put_endpoint_keeps now e es x :
  In x es ->
  exists y, In y (fst (put_endpoint now e es)) /\ CanonicalAddr y = CanonicalAddr x.
Proof.
  induction es as [|z tl IH]; cbn; [tauto|]. intros [->|Hin].
  - destruct (same_addr x e) eqn:E.
    + destruct (SucceededBy (ModTag x) (ModTag e)); cbn.
      * exists (stamp now e). split; [now left|].
        apply String.eqb_eq in E. now rewrite E.
      * exists x. split; [now left|reflexivity].
    + destruct (put_endpoint now e tl). cbn. exists x. split; [now left|reflexivity].
  - destruct (same_addr z e).
    + destruct (SucceededBy (ModTag z) (ModTag e)); cbn;
        exists x; (split; [now right|reflexivity]).
    + destruct (put_endpoint now e tl) as [tl' added]. cbn in *.
      destruct (IH Hin) as (y & Hy & Ha). exists y. split; [now right|exact Ha].
Qed.

Lemma Put_holds now e p : holds (CanonicalAddr e) (fst (Put now e p)).
Proof.
  unfold Put, holds. pose proof (put_endpoint_holds now e (endpoints p)) as H.
  destruct (put_endpoint now e (endpoints p)). exact H.
Qed.

Lemma Put_keeps now e p addr : holds addr p -> holds addr (fst (Put now e p)).
Proof.
  unfold Put, holds. intros (x & Hx & <-).
  pose proof (put_endpoint_keeps now e (endpoints p) x Hx) as H.
  destruct (put_endpoint now e (endpoints p)). exact H.
Qed.

Lemma Remove_keeps e p addr :
  holds addr p -> addr <> CanonicalAddr e -> holds addr (fst (Remove e p)).
Proof.
  unfold Remove, holds. intros (x & Hx & <-) Hne. cbn.
  exists x. split; [|reflexivity].
  apply List.filter_In. split; [exact Hx|].
  unfold same_addr. apply negb_true_iff. now apply String.eqb_neq.
Qed.

Lemma holds_nonempty addr p : holds addr p -> IsEmpty p = false.
Proof.
  unfold holds, IsEmpty. intros (x & Hx & _).
  destruct (endpoints p); [destruct Hx|reflexivity].
Qed.

(** The trie after [Register]: the pool found or created, after [Put], at
    the route key. *)
Lemma Register_byURI now uri endpoint r :
  byURI (Register now uri endpoint r)
  = match Find (RouteKey uri) (byURI r) with
    | Some pool => Insert (RouteKey uri) (fst (Put now endpoint pool)) (byURI r)
    | None =>
        let pool := NewPool (Z.quot (dropletStaleThreshold r) 4) (parseContextPath uri) in
        Insert (RouteKey uri) (fst (Put now endpoint pool))
          (Insert (RouteKey uri) pool (byURI r))
    end.
Proof.
  unfold Register.
  destruct (Find (RouteKey uri) (byURI r)) as [pool|];
    match goal with
    | |- context [Put now endpoint ?p] => destruct (Put now endpoint p) as [pool' added]
    end;
    destruct added; reflexivity.
Qed.

Lemma Register_Find_same now uri endpoint r :
  exists p, Find (RouteKey uri) (byURI (Register now uri endpoint r)) = Some p
            /\ holds (CanonicalAddr endpoint) p
            /\ forall addr q, Find (RouteKey uri) (byURI r) = Some q ->
                              holds addr q -> holds addr p.
Proof.
  rewrite Register_byURI.
  destruct (Find (RouteKey uri) (byURI r)) as [pool|] eqn:E; cbn zeta;
    rewrite Find_Insert_same; eexists; (split; [reflexivity|]);
    (split; [apply Put_holds|]).
  - intros addr q [= <-]. apply Put_keeps.
  - intros addr q [=].
Qed.

Lemma Register_Find_other now uri endpoint r k :
  k <> RouteKey uri ->
  Find k (byURI (Register now uri endpoint r)) = Find k (byURI r).
Proof.
  intros H. rewrite Register_byURI.
  destruct (Find (RouteKey uri) (byURI r)); cbn zeta;
    now rewrite !Find_Insert_other by exact H.
Qed.

(** The trie after [Unregister]. *)
Lemma Unregister_byURI uri endpoint r :
  byURI (Unregister uri endpoint r)
  = match Find (RouteKey uri) (byURI r) with
    | Some pool =>
        let pool' := fst (Remove endpoint pool) in
        let t := Insert (RouteKey uri) pool' (byURI r) in
        if IsEmpty pool' then Delete (RouteKey uri) t else t
    | None => byURI r
    end.
Proof.
  unfold Unregister.
  destruct (Find (RouteKey uri) (byURI r)) as [pool|]; [|reflexivity].
  destruct (Remove endpoint pool) as [pool' removed] eqn:E. cbn [fst].
  destruct removed; destruct (IsEmpty pool'); reflexivity.
Qed.

Lemma Unregister_Find_other uri endpoint r k :
  k <> RouteKey uri ->
  Find k (byURI (Unregister uri endpoint r)) = Find k (byURI r).
Proof.
  intros H. rewrite Unregister_byURI.
  destruct (Find (RouteKey uri) (byURI r)); [|reflexivity]. cbn zeta.
  destruct (IsEmpty _).
  - rewrite Find_Delete_other by exact H. now rewrite Find_Insert_other.
  - now rewrite Find_Insert_other.
Qed.

Lemma call_keeps_registered uri endpoint c r :
  keeps uri endpoint c = true ->
  registered (RouteKey uri) (CanonicalAddr endpoint) r ->
  registered (RouteKey uri) (CanonicalAddr endpoint) (call c r).
Proof.
  intros Hk (p & Hp & Hh). unfold registered.
  destruct c as [now' u' e'|u' e'|s t u'|s t n u' a i|f| |fr ck sn];
    cbn [call keeps] in *.
  - destruct (String.eqb_spec (RouteKey u') (RouteKey uri)) as [Heq|Hne].
    + destruct (Register_Find_same now' u' e' r) as (q & Hq & _ & Hkeep).
      rewrite Heq in *. exists q. split; [exact Hq|]. now apply (Hkeep _ p).
    + rewrite Register_Find_other by congruence. eauto.
  - destruct (String.eqb_spec (RouteKey u') (RouteKey uri)) as [Heq|Hne].
    + cbn in Hk. apply negb_true_iff in Hk.
      assert (Hne : CanonicalAddr endpoint <> CanonicalAddr e').
      { unfold same_addr in Hk. apply String.eqb_neq in Hk. congruence. }
      rewrite Unregister_byURI. rewrite Heq, Hp. cbn zeta.
      pose proof (Remove_keeps e' p _ Hh Hne) as Hr.
      rewrite (holds_nonempty _ _ Hr). rewrite Find_Insert_same. eauto.
    + rewrite Unregister_Find_other by congruence. eauto.
  - eauto.
  - rewrite LookupWithInstance_byURI. eauto.
  - eauto.
  - unfold StartPruningCycle. destruct (0 <? _); eauto.
  - discriminate.
Qed.

Lemma run_keeps_registered uri endpoint calls r :
  forallb (keeps uri endpoint) calls = true ->
  registered (RouteKey uri) (CanonicalAddr endpoint) r ->
  registered (RouteKey uri) (CanonicalAddr endpoint) (run calls r).
Proof.
  revert r. induction calls as [|c calls IH]; intros r Hall Hr; [exact Hr|].
  cbn in Hall. apply andb_true_iff in Hall as [Hc Hall].
  cbn. apply IH; [exact Hall|]. now apply call_keeps_registered.
Qed.

(** C5. After [Register(u, e)], and whatever calls follow that are neither
    an [Unregister] of [e] at the route key of [u] nor a prune tick,
    [Lookup(u)] returns a pool, and the pool contains [e]: an endpoint with
    the canonical address of [e], the equality key of endpoints. *)
Theorem Lookup_after_Register now u e r calls started endLookup :
  forallb (keeps u e) calls = true ->
  exists p,
    fst (Lookup started endLookup u (run calls (Register now u e r))) = Some p
    /\ exists x, In x (endpoints p) /\ CanonicalAddr x = CanonicalAddr e.
Proof.
  intros Hcalls.
  assert (H0 : registered (RouteKey u) (CanonicalAddr e) (Register now u e r)).
  { destruct (Register_Find_same now u e r) as (p & Hp & Hh & _). now exists p. }
  destruct (run_keeps_registered u e calls _ Hcalls H0) as (p & Hp & Hh).
  exists p. split; [|exact Hh].
  unfold Lookup. cbn [fst]. unfold MatchUri. unfold Find in Hp. rewrite Hp.
  reflexivity.
Qed.

(** ** Unregister *)

Lemma filter_all {A} (f : A -> bool) l :
  (forall x, In x l -> f x = true) -> List.filter f l = l.
Proof.
  induction l as [|x l IH]; intros H; [reflexivity|].
  cbn. rewrite (H x (or_introl eq_refl)). f_equal. apply IH.
  intros y Hy. apply H. now right.
Qed.

Lemma with_endpoints_same p : with_endpoints p (endpoints p) = p.
Proof. now destruct p. Qed.

Lemma Remove_absent e p :
  ~ holds (CanonicalAddr e) p -> fst (Remove e p) = p.
Proof.
  intros H. unfold Remove. cbn [fst]. rewrite filter_all.
  - apply with_endpoints_same.
  - intros x Hx. apply negb_true_iff. unfold same_addr.
    apply String.eqb_neq. intros E. apply H. now exists x.
Qed.

Lemma Unregister_reporter uri endpoint r :
  reporter (Unregister uri endpoint r)
  = reporter r ++ [CaptureUnregistryMessage endpoint].
Proof.
  unfold Unregister.
  destruct (Find (RouteKey uri) (byURI r)) as [pool|]; [|reflexivity].
  destruct (Remove endpoint pool) as [pool' removed].
  destruct removed; destruct (IsEmpty pool'); reflexivity.
Qed.

Lemma Unregister_timeOfLastUpdate uri endpoint r :
  timeOfLastUpdate (Unregister uri endpoint r) = timeOfLastUpdate r.
Proof.
  unfold Unregister.
  destruct (Find (RouteKey uri) (byURI r)) as [pool|]; [|reflexivity].
  destruct (Remove endpoint pool) as [pool' removed].
  destruct removed; destruct (IsEmpty pool'); reflexivity.
Qed.

Lemma Unregister_absent uri endpoint r :
  pools_nonempty (byURI r) ->
  match Find (RouteKey uri) (byURI r) with
  | None => True
  | Some pool => ~ holds (CanonicalAddr endpoint) pool
  end ->
  byURI (Unregister uri endpoint r) = byURI r.
Proof.
  intros Hwf Habs. rewrite Unregister_byURI.
  destruct (Find (RouteKey uri) (byURI r)) as [pool|] eqn:E; [|reflexivity].
  cbn zeta. rewrite (Remove_absent _ _ Habs).
  rewrite (Hwf _ _ E). now apply insert_path_id.
Qed.

(** C9. Every [Unregister(uri, endpoint)] calls the reporter's
    [CaptureUnregistryMessage] once, with the endpoint, and leaves the time
    of the last update alone. When the normalized uri has no pool in the
    trie, or its pool does not hold the endpoint, the trie and its pools
    are unchanged as well (in a registry whose pools all have an endpoint,
    as [Register], [Unregister] and the prune keep them). *)
Theorem Unregister_reports_once uri endpoint r :
  reporter (Unregister uri endpoint r)
  = reporter r ++ [CaptureUnregistryMessage endpoint]
  /\ timeOfLastUpdate (Unregister uri endpoint r) = timeOfLastUpdate r
  /\ (pools_nonempty (byURI r) ->
      match Find (RouteKey uri) (byURI r) with
      | None => True
      | Some pool => ~ holds (CanonicalAddr endpoint) pool
      end ->
      byURI (Unregister uri endpoint r) = byURI r).
Proof.
  split; [apply Unregister_reporter|].
  split; [apply Unregister_timeOfLastUpdate|].
  apply Unregister_absent.
Qed.

(** *** The pools of the trie are never empty *)

Lemma put_endpoint_nonempty now e es : fst (put_endpoint now e es) <> [].
Proof.
  destruct (put_endpoint_holds now e es) as (x & Hx & _).
  intros E. rewrite E in Hx. destruct Hx.
Qed.

Lemma Register_pools_nonempty now uri endpoint r :
  pools_nonempty (byURI r) -> pools_nonempty (byURI (Register now uri endpoint r)).
Proof.
  intros Hwf path p. rewrite Register_byURI.
  destruct (decide (path = key_path (RouteKey uri))) as [->|Hne].
  - destruct (Find (RouteKey uri) (byURI r)); cbn zeta; unfold Insert;
      rewrite find_insert_same; intros H; injection H as <-;
      first [reflexivity | exact (holds_nonempty _ _ (Put_holds now endpoint _))].
  - destruct (Find (RouteKey uri) (byURI r)); cbn zeta; unfold Insert;
      rewrite !find_insert_other by exact Hne; apply Hwf.
Qed.

Lemma Unregister_pools_nonempty uri endpoint r :
  pools_nonempty (byURI r) -> pools_nonempty (byURI (Unregister uri endpoint r)).
Proof.
  intros Hwf path p. rewrite Unregister_byURI.
  destruct (Find (RouteKey uri) (byURI r)) as [pool|]; [|apply Hwf]. cbn zeta.
  destruct (decide (path = key_path (RouteKey uri))) as [->|Hne].
  - destruct (IsEmpty (fst (Remove endpoint pool))) eqn:E; unfold Delete, Insert.
    + now rewrite find_delete_same.
    + rewrite find_insert_same. now intros [= <-].
  - destruct (IsEmpty (fst (Remove endpoint pool))); unfold Delete, Insert.
    + rewrite find_delete_other, find_insert_other by exact Hne. apply Hwf.
    + rewrite find_insert_other by exact Hne. apply Hwf.
Qed.

Lemma pruneStaleDroplets_byURI freshened clock r :
  byURI (pruneStaleDroplets freshened clock r)
  = if suspendPruning r tt then byURI r
    else each_pool_snip
           (fun path pool =>
              fst (PruneEndpoints (clock path) (dropletStaleThreshold r) pool))
           []
           (if PruneStatus_eqb (pruningStatus r) DISCONNECTED
            then each_pool (MarkUpdated freshened) (byURI r) else byURI r).
Proof.
  unfold pruneStaleDroplets.
  destruct (suspendPruning r tt); [reflexivity|].
  destruct (PruneStatus_eqb (pruningStatus r) DISCONNECTED); reflexivity.
Qed.

Lemma pruneStaleDroplets_pools_nonempty freshened clock r :
  pools_nonempty (byURI r) ->
  pools_nonempty (byURI (pruneStaleDroplets freshened clock r)).
Proof.
  intros Hwf path p. rewrite pruneStaleDroplets_byURI.
  destruct (suspendPruning r tt); [apply Hwf|].
  rewrite find_each_pool_snip. cbn [app].
  destruct (find_path path _) as [q|]; [|discriminate].
  destruct (IsEmpty (fst (PruneEndpoints (clock path) (dropletStaleThreshold r) q)))
    eqn:E; [discriminate|].
  now intros [= <-].
Qed.

Lemma prune_tick_byURI freshened clock since r :
  byURI (prune_tick freshened clock since r)
  = byURI (pruneStaleDroplets freshened clock r).
Proof.
  unfold prune_tick. cbn [byURI report set_reporter log set_logger].
  now rewrite !pruneStaleDroplets_byURI.
Qed.

Lemma call_pools_nonempty c r :
  pools_nonempty (byURI r) -> pools_nonempty (byURI (call c r)).
Proof.
  intros Hwf.
  destruct c as [now' u' e'|u' e'|s t u'|s t n u' a i|f| |fr ck sn]; cbn [call].
  - now apply Register_pools_nonempty.
  - now apply Unregister_pools_nonempty.
  - exact Hwf.
  - now rewrite LookupWithInstance_byURI.
  - exact Hwf.
  - unfold StartPruningCycle. now destruct (0 <? _).
  - rewrite prune_tick_byURI. now apply pruneStaleDroplets_pools_nonempty.
Qed.

(** Whatever calls a new registry receives, no pool of its trie is empty. *)
Lemma run_pools_nonempty calls lg c rep guid :
  pools_nonempty (byURI (run calls (NewRouteRegistry lg c rep guid))).
Proof.
  assert (H0 : pools_nonempty (byURI (NewRouteRegistry lg c rep guid))).
  { intros path p. cbn [NewRouteRegistry byURI]. now rewrite find_NewTrie. }
  revert H0. generalize (NewRouteRegistry lg c rep guid).
  induction calls as [|x calls IH]; intros r Hr; [exact Hr|].
  cbn. apply IH. now apply call_pools_nonempty.
Qed.

(** ** The prune tick *)

Lemma endpoints_at_each_pool f path t :
  endpoints_at path (each_pool f t)
  = match find_path path t with
    | Some pool => endpoints (f pool)
    | None => []
    end.
Proof.
  unfold endpoints_at. rewrite find_each_pool.
  now destruct (find_path path t).
Qed.




Lemma pruneStaleDroplets_timeOfLastUpdate freshened clock r :
  timeOfLastUpdate (pruneStaleDroplets freshened clock r) = timeOfLastUpdate r.
Proof.
  unfold pruneStaleDroplets. destruct (suspendPruning r tt); [reflexivity|].
  destruct (PruneStatus_eqb (pruningStatus r) DISCONNECTED); reflexivity.
Qed.

Lemma pruneStaleDroplets_reporter freshened clock r :
  reporter (pruneStaleDroplets freshened clock r) = reporter r.
Proof.
  unfold pruneStaleDroplets. destruct (suspendPruning r tt); [reflexivity|].
  destruct (PruneStatus_eqb (pruningStatus r) DISCONNECTED); reflexivity.
Qed.


Lemma prune_tick_timeOfLastUpdate freshened clock since r :
  timeOfLastUpdate (prune_tick freshened clock since r) = timeOfLastUpdate r.
Proof.
  unfold prune_tick. cbn [timeOfLastUpdate report set_reporter log set_logger].
  now rewrite pruneStaleDroplets_timeOfLastUpdate.
Qed.





(** ** The pool iterator *)

Lemma scan_lt n len failed i j :
  (i < len)%nat -> scan n len failed i = Some j -> (j < len)%nat.
Proof.
  revert i. induction n as [|n IH]; intros i Hi; cbn; [discriminate|].
  destruct (marked i failed).
  - apply IH. apply Nat.mod_upper_bound. lia.
  - now intros [= <-].
Qed.

Lemma Next_empty it : snapshot it = [] -> Next it = (None, it).
Proof. intros H. unfold Next. now rewrite H. Qed.

(** A pool with endpoints always yields one of them, also when every one
    of them has been reported failed. *)
Lemma Next_nonempty it :
  snapshot it <> [] ->
  exists e, fst (Next it) = Some e /\ In e (snapshot it)
            /\ snapshot (snd (Next it)) = snapshot it.
Proof.
  intros Hne. unfold Next.
  destruct (length (snapshot it)) as [|m] eqn:El.
  - destruct (snapshot it); [congruence|discriminate].
  - assert (Hstart : (cursor it mod S m < S m)%nat)
      by (apply Nat.mod_upper_bound; lia).
    assert (Hi : exists i, (i < S m)%nat /\
              (let '(i, marks) :=
                 match scan (S m) (S m) (failed it) (cursor it mod S m)%nat with
                 | Some i => (i, failed it)
                 | None => ((cursor it mod S m)%nat, [])
                 end in i) = i).
    { destruct (scan (S m) (S m) (failed it) (cursor it mod S m)%nat) as [i|] eqn:Es.
      - exists i. split; [|reflexivity]. now apply (scan_lt _ _ _ _ _ Hstart Es).
      - eexists. split; [exact Hstart|reflexivity]. }
    destruct Hi as (i & Hlt & Hi).
    destruct (match scan (S m) (S m) (failed it) (cursor it mod S m)%nat with
              | Some i => (i, failed it)
              | None => ((cursor it mod S m)%nat, [])
              end) as [i' marks]. subst i'. cbn [fst snd snapshot].
    destruct (nth_error (snapshot it) i) as [e|] eqn:En.
    + exists e. split; [reflexivity|]. split; [|reflexivity].
      now apply nth_error_In in En.
    + apply nth_error_None in En. lia.
Qed.

Lemma Next_single it e :
  snapshot it = [e] ->
  fst (Next it) = Some e /\ snapshot (snd (Next it)) = [e].
Proof.
  intros H. destruct (Next_nonempty it) as (x & Hx & Hin & Hs).
  - rewrite H. discriminate.
  - rewrite H in Hin. destruct Hin as [<-|[]]. rewrite Hs. now split.
Qed.

Lemma EndpointFailed_snapshot it : snapshot (EndpointFailed it) = snapshot it.
Proof. unfold EndpointFailed. now destruct (lastIdx it). Qed.

(** ** The retry loop *)

Import RoundTripper.

(** Normal mode, a pool of one endpoint and a transport whose every call
    fails with a retryable error: each of the [n] attempts captures a
    routing request for the endpoint, calls the transport with the request
    aimed at it and logs [backend-endpoint-failed]. *)
Lemma retry_loop_single_fail rt request e n : forall st,
  snapshot (iter st) = [e] ->
  (forall k, exists res f,
      transport rt k (to_endpoint e request) = (res, Some f)
      /\ retryableError f = true) ->
  let st' := retry_loop n rt None request st in
  transportCalls (effects st')
  = transportCalls (effects st) ++ repeat (to_endpoint e request) n
  /\ reporterCalls (effects st')
     = reporterCalls (effects st) ++ repeat (CaptureRoutingRequest e) n
  /\ List.map message (logLines (effects st'))
     = List.map message (logLines (effects st)) ++ repeat "backend-endpoint-failed" n
  /\ snapshot (iter st') = [e]
  /\ (n <> 0%nat ->
      endpoint st' = Some e
      /\ err st' = snd (transport rt (length (transportCalls (effects st)) + n - 1)%nat
                          (to_endpoint e request))).
Proof.
  induction n as [|n IH]; intros st Hsnap Hfail; cbn zeta.
  - cbn. rewrite !app_nil_r. repeat split; try assumption; congruence.
  - cbn [retry_loop].
    destruct (Next_single _ _ Hsnap) as [HN Hs].
    destruct (Next (iter st)) as [ep it']. cbn [fst snd] in HN, Hs. subst ep.
    unfold call_transport. cbn [transportCalls add_report].
    destruct (Hfail (length (transportCalls (effects st)))) as (res & f & Ht & Hr).
    rewrite Ht, Hr.
    match goal with
    | |- context [retry_loop n rt None request ?s] =>
        specialize (IH s); cbn zeta in IH;
        destruct IH as (H1 & H2 & H3 & H4 & H5);
        [cbn; now rewrite EndpointFailed_snapshot | exact Hfail |]
    end.
    cbn [effects transportCalls reporterCalls logLines add_line add_report iter]
      in H1, H2, H3, H4, H5 |- *.
    rewrite H1, H2, H3, H4. rewrite map_app, <- !app_assoc.
    do 4 (split; [reflexivity|]). intros _.
    destruct n as [|n].
    + cbn [retry_loop endpoint err]. rewrite Nat.add_1_r. cbn [Nat.sub].
      rewrite Nat.sub_0_r, Ht. now split.
    + destruct H5 as [H5a H5b]; [discriminate|]. split; [exact H5a|].
      rewrite H5b. rewrite length_app. cbn [length]. do 2 f_equal. lia.
Qed.

Lemma write_bad_gateway_written rw : bad_gateway_written (write_bad_gateway rw).
Proof.
  unfold bad_gateway_written. split; [reflexivity|]. split; [reflexivity|].
  exists (Body rw), EmptyString. reflexivity.
Qed.

Lemma dial_retryable inner : retryableError (OpError "dial" inner) = true.
Proof. reflexivity. Qed.

(** ** RoundTrip *)

(** C2, as the code has it. For a request without route-service URL whose
    pool holds one endpoint, and a transport whose every call fails with a
    dial error: [RoundTrip] calls the transport three times, each time with
    the request aimed at the endpoint; it writes the canonical 502, stamps
    the access log record with 502 and the endpoint, captures three routing
    requests for the endpoint and one bad gateway, and returns no response
    and the dial error of the last call. *)
Theorem RoundTrip_dial_error rt request pool e rw alr :
  ctxRoutePool (Ctx request) = Some pool ->
  endpoints pool = [e] ->
  ctxProxyResponseWriter (Ctx request) = Some rw ->
  ctxAccessLogRecord (Ctx request) = Some alr ->
  ctxRouteServiceURL (Ctx request) = None ->
  (forall k rq, exists res inner,
      transport rt k rq = (res, Some (OpError "dial" inner))) ->
  let o := RoundTrip rt request in
  transportCalls (after o) = repeat (to_endpoint e request) 3
  /\ (exists w, writer o = Some w /\ bad_gateway_written w)
  /\ record o = Some (mkRecord StatusBadGateway (Some e))
  /\ routing_requests (reporterCalls (after o)) = [e; e; e]
  /\ bad_gateways (reporterCalls (after o)) = 1%nat
  /\ failure o = snd (transport rt 2%nat (to_endpoint e request))
  /\ (exists inner, failure o = Some (OpError "dial" inner))
  /\ returned o = None.
Proof.
  intros Hpool He Hrw Halr Hrs Hdial. cbn zeta.
  unfold RoundTrip. rewrite Hpool, Hrw, Halr, Hrs.
  destruct (retry_loop_single_fail rt request e MaxRetries
              (mkLoop (Iterator pool) None None None no_effects))
    as (H1 & H2 & _ & _ & H5).
  { exact He. }
  { intros k. destruct (Hdial k (to_endpoint e request)) as (res & inner & Ht).
    exists res, (OpError "dial" inner). now split. }
  destruct H5 as [H5 H6]; [discriminate|].
  cbn [effects transportCalls reporterCalls no_effects app length Nat.add] in H1, H2, H6.
  change (MaxRetries - 1)%nat with 2%nat in H6.
  destruct (Hdial 2%nat (to_endpoint e request)) as (res & inner & Ht).
  rewrite H6, Ht. cbn [snd failure writer record after returned].
  rewrite H5. cbn [add_report transportCalls reporterCalls]. rewrite H1, H2.
  split; [reflexivity|].
  split; [exists (write_bad_gateway rw); split;
          [reflexivity|apply write_bad_gateway_written]|].
  repeat split; try reflexivity. now exists inner.
Qed.

(** Route-service mode and a transport whose every call fails with a
    retryable error: each of the [n] attempts calls the transport with the
    request aimed at the route service and logs
    [route-service-connection-failed]; the reporter and the iterator are
    left alone. *)
Lemma retry_loop_route_service_fail rt request url n : forall st,
  (forall k, exists res f,
      transport rt k (with_url url request) = (res, Some f)
      /\ retryableError f = true) ->
  let st' := retry_loop n rt (Some url) request st in
  transportCalls (effects st')
  = transportCalls (effects st) ++ repeat (with_url url request) n
  /\ reporterCalls (effects st') = reporterCalls (effects st)
  /\ List.map message (logLines (effects st'))
     = List.map message (logLines (effects st))
       ++ repeat "route-service-connection-failed" n
  /\ endpoint st' = endpoint st
  /\ (n <> 0%nat ->
      err st' = snd (transport rt (length (transportCalls (effects st)) + n - 1)%nat
                          (with_url url request))).
Proof.
  induction n as [|n IH]; intros st Hfail; cbn zeta.
  - cbn. rewrite !app_nil_r. repeat split; congruence.
  - cbn [retry_loop]. unfold call_transport.
    destruct (Hfail (length (transportCalls (effects st)))) as (res & f & Ht & Hr).
    rewrite Ht, Hr.
    match goal with
    | |- context [retry_loop n rt (Some url) request ?s] =>
        specialize (IH s Hfail); cbn zeta in IH;
        destruct IH as (H1 & H2 & H3 & H4 & H5)
    end.
    cbn [effects transportCalls reporterCalls logLines add_line endpoint]
      in H1, H2, H3, H4, H5 |- *.
    rewrite H1, H2, H3, H4. rewrite map_app, <- !app_assoc.
    do 4 (split; [reflexivity|]). intros _.
    destruct n as [|n].
    + cbn [retry_loop err]. rewrite Nat.add_1_r. cbn [Nat.sub].
      now rewrite Nat.sub_0_r, Ht.
    + rewrite H5 by discriminate. rewrite length_app. cbn [length].
      do 2 f_equal. lia.
Qed.

(** One attempt whose transport call fails with an error that is not
    retryable ends the loop: nothing is logged, and in normal mode the
    routing request of the endpoint tried is the only capture. *)
Lemma retry_loop_non_retryable rt request routeServiceURL n st res f :
  (routeServiceURL = None -> snapshot (iter st) <> []) ->
  (forall rq, transport rt (length (transportCalls (effects st))) rq = (res, Some f)) ->
  retryableError f = false ->
  let st' := retry_loop (S n) rt routeServiceURL request st in
  length (transportCalls (effects st')) = S (length (transportCalls (effects st)))
  /\ err st' = Some f
  /\ logLines (effects st') = logLines (effects st)
  /\ (routeServiceURL = None ->
      exists e, endpoint st' = Some e /\ In e (snapshot (iter st))
                /\ reporterCalls (effects st')
                   = reporterCalls (effects st) ++ [CaptureRoutingRequest e])
  /\ (routeServiceURL <> None ->
      endpoint st' = endpoint st
      /\ reporterCalls (effects st') = reporterCalls (effects st)).
Proof.
  intros Hsnap Ht Hr. cbn zeta. cbn [retry_loop].
  destruct routeServiceURL as [url|].
  - unfold call_transport. rewrite Ht, Hr. cbn. rewrite length_app. cbn.
    repeat split; try lia; try reflexivity. congruence.
  - destruct (Next_nonempty (iter st) (Hsnap eq_refl)) as (e & HN & Hin & _).
    destruct (Next (iter st)) as [ep it']. cbn [fst] in HN. subst ep.
    unfold call_transport. cbn [transportCalls add_report]. rewrite Ht, Hr.
    cbn. rewrite length_app. cbn.
    repeat split; try lia; try reflexivity; try congruence.
    intros _. exists e. now repeat split.
Qed.

(** C6. For a request that has the three context values and reaches the
    transport (a route-service URL, or a pool with an endpoint), when the
    first call of the transport fails with an error that is not retryable:
    [RoundTrip] calls the transport once, writes the canonical 502, returns
    no response and that error, and does not log
    [backend-endpoint-failed]. *)
Theorem RoundTrip_non_retryable rt request pool rw alr res f :
  ctxRoutePool (Ctx request) = Some pool ->
  ctxProxyResponseWriter (Ctx request) = Some rw ->
  ctxAccessLogRecord (Ctx request) = Some alr ->
  (ctxRouteServiceURL (Ctx request) = None -> endpoints pool <> []) ->
  (forall rq, transport rt 0%nat rq = (res, Some f)) ->
  retryableError f = false ->
  let o := RoundTrip rt request in
  length (transportCalls (after o)) = 1%nat
  /\ (exists w, writer o = Some w /\ bad_gateway_written w)
  /\ failure o = Some f
  /\ returned o = None
  /\ logged "backend-endpoint-failed" (logLines (after o)) = false
  /\ bad_gateways (reporterCalls (after o)) = 1%nat.
Proof.
  intros Hpool Hrw Halr Hreach Ht Hr. cbn zeta.
  unfold RoundTrip. rewrite Hpool, Hrw, Halr.
  change MaxRetries with 3%nat.
  destruct (retry_loop_non_retryable rt request (ctxRouteServiceURL (Ctx request)) 2
              (mkLoop (Iterator pool) None None None no_effects) res f)
    as (H1 & H2 & H3 & H4 & H5); [exact Hreach|exact Ht|exact Hr|].
  rewrite H2. cbn [after failure writer returned add_report transportCalls logLines
                   reporterCalls].
  rewrite H1, H3.
  split; [reflexivity|].
  split; [exists (write_bad_gateway rw); split;
          [reflexivity|apply write_bad_gateway_written]|].
  do 3 (split; [reflexivity|]).
  destruct (ctxRouteServiceURL (Ctx request)) as [url|].
  - destruct H5 as [_ H5]; [discriminate|]. now rewrite H5.
  - destruct (H4 eq_refl) as (e & _ & _ & H6). now rewrite H6.
Qed.

(** C7, as the code has it. For a request without route-service URL whose
    pool is empty: [RoundTrip] returns no response and
    [NoEndpointsAvailable], writes the canonical 502, stamps the access log
    record with 502 and no endpoint, captures no routing request and one bad
    gateway, and never calls the transport. *)
Theorem RoundTrip_no_endpoints rt request pool rw alr :
  ctxRoutePool (Ctx request) = Some pool ->
  endpoints pool = [] ->
  ctxProxyResponseWriter (Ctx request) = Some rw ->
  ctxAccessLogRecord (Ctx request) = Some alr ->
  ctxRouteServiceURL (Ctx request) = None ->
  let o := RoundTrip rt request in
  failure o = Some NoEndpointsAvailable
  /\ returned o = None
  /\ (exists w, writer o = Some w /\ bad_gateway_written w)
  /\ record o = Some (mkRecord StatusBadGateway None)
  /\ routing_requests (reporterCalls (after o)) = []
  /\ bad_gateways (reporterCalls (after o)) = 1%nat
  /\ transportCalls (after o) = [].
Proof.
  intros Hpool He Hrw Halr Hrs. cbn zeta.
  unfold RoundTrip. rewrite Hpool, Hrw, Halr, Hrs.
  change MaxRetries with 3%nat. cbn [retry_loop iter].
  rewrite (Next_empty (Iterator pool)) by exact He. cbn.
  repeat split.
  exists (write_bad_gateway rw). split; [reflexivity|apply write_bad_gateway_written].
Qed.

Lemma not_set_Contains key :
  Str.Contains (Error (ErrorString (String.append key " not set on context"))) key.
Proof. exists EmptyString, " not set on context"%string. reflexivity. Qed.

(** C8. A request whose context lacks the route pool, the proxy response
    writer or the access log record, looked for in that order, makes
    [RoundTrip] return an error whose message contains the name of the first
    one that is missing, with no response and before any call of the
    transport. *)
Theorem RoundTrip_missing_key rt request :
  let o := RoundTrip rt request in
  (ctxRoutePool (Ctx request) = None ->
   exists f, failure o = Some f /\ Str.Contains (Error f) "RoutePool"
             /\ returned o = None /\ after o = no_effects)
  /\ (ctxRoutePool (Ctx request) <> None ->
      ctxProxyResponseWriter (Ctx request) = None ->
      exists f, failure o = Some f /\ Str.Contains (Error f) "ProxyResponseWriter"
                /\ returned o = None /\ after o = no_effects)
  /\ (ctxRoutePool (Ctx request) <> None ->
      ctxProxyResponseWriter (Ctx request) <> None ->
      ctxAccessLogRecord (Ctx request) = None ->
      exists f, failure o = Some f /\ Str.Contains (Error f) "AccessLogRecord"
                /\ returned o = None /\ after o = no_effects).
Proof.
  cbn zeta. unfold RoundTrip. split; [|split].
  - intros ->. eexists. split; [reflexivity|].
    split; [apply not_set_Contains|now split].
  - intros Hp ->. destruct (ctxRoutePool (Ctx request)); [|congruence].
    eexists. split; [reflexivity|].
    split; [apply not_set_Contains|now split].
  - intros Hp Hw ->. destruct (ctxRoutePool (Ctx request)); [|congruence].
    destruct (ctxProxyResponseWriter (Ctx request)); [|congruence].
    eexists. split; [reflexivity|].
    split; [apply not_set_Contains|now split].
Qed.

(** * Counterexamples and instances on the values of the test-suites *)

(** C1 as it is written fails twice. Two endpoints of the pool found have
    the application id and the instance index, and [LookupWithInstance]
    returns a pool all the same, built around the second of them. And for
    a uri that ends in two slashes, [Lookup] of the uri finds a pool with
    one endpoint that has them, while [LookupWithInstance], which looks
    the normalized uri up and so normalizes twice, returns none. *)
Lemma LookupWithInstance_not_as_written :
  (exists p,
      fst (Lookup 0 0 "foo.com" Sample.twins) = Some p
      /\ length (instances "app" "0" p) = 2%nat
      /\ fst (LookupWithInstance 0 0 3 "foo.com" "app" "0" Sample.twins) <> None
      /\ fst (LookupWithInstance 0 0 3 "foo.com" "app" "0" Sample.twins)
         = Some (surgical_pool 3
                   (stamp 2 (Sample.new_endpoint "app" "10.0.0.2:80" "0" 0))))
  /\ (RouteKey "a/b//" = "a/b/"%string
      /\ RouteKey (RouteKey "a/b//") = "a/b"%string
      /\ exists p,
           fst (Lookup 0 0 "a/b//" Sample.slashes) = Some p
           /\ length (instances "appId" "1" p) = 1%nat
           /\ fst (LookupWithInstance 0 0 3 "a/b//" "appId" "1" Sample.slashes)
              = None).
Proof.
  split.
  - eexists. split; [vm_compute; reflexivity|].
    split; [reflexivity|]. split; [vm_compute; discriminate|].
    vm_compute. reflexivity.
  - split; [reflexivity|]. split; [reflexivity|].
    eexists. split; [vm_compute; reflexivity|].
    split; [reflexivity|]. vm_compute. reflexivity.
Qed.

(** C2 as it is written fails for a request that carries a route-service
    URL: the pool holds one endpoint and every call of the transport fails
    with a dial error, yet no routing request is captured and the access log
    record gets no endpoint. *)
Lemma RoundTrip_dial_error_route_service :
  endpoints Sample.routePool = [Sample.endpoint]
  /\ routing_requests
       (reporterCalls
          (after (RoundTrip
                    (Sample.roundTripper (Sample.returns None (Some Sample.dialError)))
                    (Sample.request
                       (Sample.context Sample.routePool
                          (Some Sample.routeServiceURL))))))
     <> [Sample.endpoint; Sample.endpoint; Sample.endpoint]
  /\ record (RoundTrip
               (Sample.roundTripper (Sample.returns None (Some Sample.dialError)))
               (Sample.request
                  (Sample.context Sample.routePool (Some Sample.routeServiceURL))))
     <> Some (mkRecord StatusBadGateway (Some Sample.endpoint)).
Proof.
  split; [reflexivity|]. split; vm_compute; discriminate.
Qed.


(** C7 as it is written fails for a request that carries a route-service
    URL: its pool is empty, yet the transport is called, and with a
    transport that succeeds there is neither an error nor a bad gateway. *)
Lemma RoundTrip_empty_pool_route_service :
  endpoints Sample.emptyPool = []
  /\ failure (RoundTrip
                (Sample.roundTripper (Sample.returns None None))
                (Sample.request
                   (Sample.context Sample.emptyPool (Some Sample.routeServiceURL))))
     <> Some NoEndpointsAvailable
  /\ bad_gateways
       (reporterCalls
          (after (RoundTrip
                    (Sample.roundTripper (Sample.returns None None))
                    (Sample.request
                       (Sample.context Sample.emptyPool
                          (Some Sample.routeServiceURL))))))
     <> 1%nat
  /\ length
       (transportCalls
          (after (RoundTrip
                    (Sample.roundTripper (Sample.returns None None))
                    (Sample.request
                       (Sample.context Sample.emptyPool
                          (Some Sample.routeServiceURL))))))
     = 1%nat.
Proof.
  split; [reflexivity|]. split; [vm_compute; discriminate|].
  split; [vm_compute; discriminate|reflexivity].
Qed.

(** [Lookup_after_Register] with a lookup and an unregistration at another
    uri in between. *)
Lemma Lookup_after_Register_witness :
  forallb (keeps "foo.com" Sample.endpoint)
    [CallLookup 0 1 "bar.com"; CallUnregister "bar.com" Sample.endpoint;
     CallRegister 4 "foo.com" Sample.other] = true
  /\ exists p,
       fst (Lookup 5 6 "foo.com"
              (run [CallLookup 0 1 "bar.com"; CallUnregister "bar.com" Sample.endpoint;
                    CallRegister 4 "foo.com" Sample.other]
                   (Register 0 "foo.com" Sample.endpoint Sample.registry))) = Some p
       /\ exists x, In x (endpoints p)
                    /\ CanonicalAddr x = CanonicalAddr Sample.endpoint.
Proof.
  split; [reflexivity|].
  apply (Lookup_after_Register 0 "foo.com" Sample.endpoint Sample.registry).
  reflexivity.
Defined.

(** [Unregister_reports_once] where the uri has no pool and where the pool
    of the uri does not hold the endpoint. *)
Lemma Unregister_reports_once_witness :
  (pools_nonempty (byURI Sample.registry)
   /\ Find (RouteKey "foo.com") (byURI Sample.registry) = None
   /\ byURI (Unregister "foo.com" Sample.endpoint Sample.registry)
      = byURI Sample.registry)
  /\ (pools_nonempty (byURI Sample.single)
      /\ (exists pool, Find (RouteKey "foo.com") (byURI Sample.single) = Some pool
                       /\ ~ holds (CanonicalAddr Sample.other) pool)
      /\ byURI (Unregister "foo.com" Sample.other Sample.single)
         = byURI Sample.single).
Proof.
  assert (H0 : pools_nonempty (byURI Sample.registry)).
  { intros path p. cbn. rewrite find_NewTrie. discriminate. }
  assert (H1 : pools_nonempty (byURI Sample.single)).
  { now apply Register_pools_nonempty. }
  assert (H2 : ~ holds (CanonicalAddr Sample.other)
                 (fst (Put 0 Sample.endpoint (NewPool 2 "/")))).
  { intros (x & Hx & Ha). vm_compute in Hx. destruct Hx as [<-|[]]. discriminate Ha. }
  split.
  - split; [exact H0|]. split; [reflexivity|].
    apply (Unregister_reports_once "foo.com" Sample.endpoint Sample.registry);
      [exact H0|vm_compute; exact I].
  - split; [exact H1|]. split.
    + eexists. split; [vm_compute; reflexivity|exact H2].
    + apply (Unregister_reports_once "foo.com" Sample.other Sample.single);
        [exact H1|].
      change (Find (RouteKey "foo.com") (byURI Sample.single))
        with (Some (fst (Put 0 Sample.endpoint (NewPool 2 "/")))).
      exact H2.
Defined.

(** [RoundTrip_dial_error] on the request of the test-suite. *)
Lemma RoundTrip_dial_error_witness :
  endpoints Sample.routePool = [Sample.endpoint]
  /\ transportCalls
       (after (RoundTrip
                 (Sample.roundTripper (Sample.returns None (Some Sample.dialError)))
                 (Sample.request (Sample.context Sample.routePool None))))
     = repeat (to_endpoint Sample.endpoint
                 (Sample.request (Sample.context Sample.routePool None))) 3
  /\ failure (RoundTrip
                (Sample.roundTripper (Sample.returns None (Some Sample.dialError)))
                (Sample.request (Sample.context Sample.routePool None)))
     = Some Sample.dialError.
Proof.
  split; [reflexivity|].
  destruct (RoundTrip_dial_error
              (Sample.roundTripper (Sample.returns None (Some Sample.dialError)))
              (Sample.request (Sample.context Sample.routePool None))
              Sample.routePool Sample.endpoint NewRecorder (mkRecord 0 None))
    as (H1 & _ & _ & _ & _ & H6 & _).
  - reflexivity.
  - reflexivity.
  - reflexivity.
  - reflexivity.
  - reflexivity.
  - intros k rq. exists None, (ErrorString "error"). reflexivity.
  - split; [exact H1|exact H6].
Defined.

(** [RoundTrip_non_retryable] on the request of the test-suite, with the
    transport that returns [errors.New("error")]. *)
Lemma RoundTrip_non_retryable_witness :
  retryableError (ErrorString "error") = false
  /\ length
       (transportCalls
          (after (RoundTrip
                    (Sample.roundTripper
                       (Sample.returns None (Some (ErrorString "error"))))
                    (Sample.request (Sample.context Sample.routePool None)))))
     = 1%nat
  /\ logged "backend-endpoint-failed"
       (logLines
          (after (RoundTrip
                    (Sample.roundTripper
                       (Sample.returns None (Some (ErrorString "error"))))
                    (Sample.request (Sample.context Sample.routePool None)))))
     = false.
Proof.
  split; [reflexivity|].
  destruct (RoundTrip_non_retryable
              (Sample.roundTripper (Sample.returns None (Some (ErrorString "error"))))
              (Sample.request (Sample.context Sample.routePool None))
              Sample.routePool NewRecorder (mkRecord 0 None)
              None (ErrorString "error"))
    as (H1 & _ & _ & _ & H5 & _).
  - reflexivity.
  - reflexivity.
  - reflexivity.
  - intros _. vm_compute. discriminate.
  - intros rq. reflexivity.
  - reflexivity.
  - split; [exact H1|exact H5].
Defined.

(** [RoundTrip_no_endpoints] on the pool of the test-suite after its
    endpoint is removed. *)
Lemma RoundTrip_no_endpoints_witness :
  endpoints Sample.emptyPool = []
  /\ failure (RoundTrip
                (Sample.roundTripper (Sample.returns None None))
                (Sample.request (Sample.context Sample.emptyPool None)))
     = Some NoEndpointsAvailable
  /\ transportCalls
       (after (RoundTrip
                 (Sample.roundTripper (Sample.returns None None))
                 (Sample.request (Sample.context Sample.emptyPool None))))
     = [].
Proof.
  split; [reflexivity|].
  destruct (RoundTrip_no_endpoints
              (Sample.roundTripper (Sample.returns None None))
              (Sample.request (Sample.context Sample.emptyPool None))
              Sample.emptyPool NewRecorder (mkRecord 0 None))
    as (H1 & _ & _ & _ & _ & _ & H7).
  - reflexivity.
  - reflexivity.
  - reflexivity.
  - reflexivity.
  - reflexivity.
  - split; [exact H1|exact H7].
Defined.

(** [RoundTrip_missing_key] on the three requests of the test-suite: no
    context value; the route pool only; the route pool and the proxy
    response writer. *)
Lemma RoundTrip_missing_key_witness :
  (exists f,
      failure (RoundTrip (Sample.roundTripper (Sample.returns None None))
                 (Sample.request Sample.no_context)) = Some f
      /\ Str.Contains (Error f) "RoutePool")
  /\ (exists f,
         failure (RoundTrip (Sample.roundTripper (Sample.returns None None))
                    (Sample.request
                       (mkContext (Some Sample.routePool) None None None))) = Some f
         /\ Str.Contains (Error f) "ProxyResponseWriter")
  /\ (exists f,
         failure (RoundTrip (Sample.roundTripper (Sample.returns None None))
                    (Sample.request
                       (mkContext (Some Sample.routePool) (Some NewRecorder) None None)))
         = Some f
         /\ Str.Contains (Error f) "AccessLogRecord").
Proof.
  split; [|split].
  - destruct (RoundTrip_missing_key (Sample.roundTripper (Sample.returns None None))
                (Sample.request Sample.no_context)) as (H & _ & _).
    destruct (H eq_refl) as (f & Hf & Hc & _). now exists f.
  - destruct (RoundTrip_missing_key (Sample.roundTripper (Sample.returns None None))
                (Sample.request (mkContext (Some Sample.routePool) None None None)))
      as (_ & H & _).
    destruct H as (f & Hf & Hc & _); [discriminate|reflexivity|]. now exists f.
  - destruct (RoundTrip_missing_key (Sample.roundTripper (Sample.returns None None))
                (Sample.request
                   (mkContext (Some Sample.routePool) (Some NewRecorder) None None)))
      as (_ & _ & H).
    destruct H as (f & Hf & Hc & _); [discriminate|discriminate|reflexivity|].
    now exists f.
Defined.

(** * Further properties of the registry *)

(** ** parseContextPath *)

Lemma cut_at_absent c s : Str.from_first c (Str.cut_at c s) = None.
Proof.
  induction s as [|x r IH]; [reflexivity|]. cbn.
  destruct (Ascii.eqb x c) eqn:E; [reflexivity|]. cbn. now rewrite E.
Qed.

Lemma cut_at_id c s : Str.from_first c s = None -> Str.cut_at c s = s.
Proof.
  induction s as [|x r IH]; [reflexivity|]. cbn.
  destruct (Ascii.eqb x c); [discriminate|]. intros H. now rewrite IH.
Qed.

Lemma append_nil_l s : String.append EmptyString s = s.
Proof. reflexivity. Qed.

Lemma append_cons x r s :
  String.append (String x r) s = String x (String.append r s).
Proof. reflexivity. Qed.

Lemma cut_at_append c p q :
  Str.from_first c p = None -> Str.cut_at c (String.append p (String c q)) = p.
Proof.
  induction p as [|x r IH].
  - intros _. rewrite append_nil_l. cbn [Str.cut_at]. now rewrite Ascii.eqb_refl.
  - rewrite append_cons. cbn [Str.cut_at Str.from_first].
    destruct (Ascii.eqb x c); [discriminate|]. intros H. now rewrite IH.
Qed.

Lemma splitN2_slash_append host rest :
  Str.from_first Str.slash host = None ->
  Str.splitN2_slash (String.append host (String Str.slash rest)) = (host, Some rest).
Proof.
  induction host as [|x r IH].
  - reflexivity.
  - rewrite append_cons. cbn [Str.splitN2_slash Str.from_first].
    destruct (Ascii.eqb x Str.slash); [discriminate|]. intros H. now rewrite IH.
Qed.

Lemma splitN2_slash_none host :
  Str.from_first Str.slash host = None -> Str.splitN2_slash host = (host, None).
Proof.
  induction host as [|x r IH]; cbn [Str.splitN2_slash Str.from_first].
  - reflexivity.
  - destruct (Ascii.eqb x Str.slash); [discriminate|]. intros H. now rewrite IH.
Qed.

Lemma trim_slash_no_slash host rest :
  host <> EmptyString -> Str.from_first Str.slash host = None ->
  Str.trim_slash (String.append host rest) = String.append host rest.
Proof.
  destruct host as [|x r]; [congruence|]. intros _.
  rewrite append_cons. cbn [Str.trim_slash Str.from_first].
  now destruct (Ascii.eqb x Str.slash).
Qed.

Lemma trim_slash_host host :
  host <> EmptyString -> Str.from_first Str.slash host = None ->
  Str.trim_slash host = host.
Proof.
  destruct host as [|x r]; [congruence|]. intros _.
  cbn [Str.trim_slash Str.from_first].
  now destruct (Ascii.eqb x Str.slash).
Qed.

(** The context path of any uri starts with a slash and carries no query:
    there is no question mark in it. *)
Theorem parseContextPath_shape uri :
  exists rest, parseContextPath uri = String "/" rest
               /\ Str.from_first "?" (parseContextPath uri) = None.
Proof.
  unfold parseContextPath.
  destruct (snd (Str.splitN2_slash (Str.trim_slash uri))) as [rest|].
  - exists (Str.cut_at "?" rest). split; [reflexivity|apply cut_at_absent].
  - exists EmptyString. split; reflexivity.
Qed.

(** For a uri made of a host (not empty, without slash) and a path, the
    context path is the slash and the path, up to the question mark when
    the path has one; for a host alone it is the slash. *)
Theorem parseContextPath_host_path host path query :
  host <> EmptyString ->
  Str.from_first Str.slash host = None ->
  Str.from_first "?" path = None ->
  parseContextPath (String.append host (String "/" path)) = String "/" path
  /\ parseContextPath
       (String.append host (String "/" (String.append path (String "?" query))))
     = String "/" path
  /\ parseContextPath host = "/"%string.
Proof.
  intros Hne Hhost Hpath. unfold parseContextPath.
  rewrite !trim_slash_no_slash by assumption.
  rewrite !splitN2_slash_append by assumption. cbn [snd].
  split; [|split].
  - change (Str.cut_at "?" (String Str.slash path))
      with (String Str.slash (Str.cut_at "?" path)).
    now rewrite cut_at_id.
  - change (Str.cut_at "?" (String Str.slash (String.append path (String "?" query))))
      with (String Str.slash (Str.cut_at "?" (String.append path (String "?" query)))).
    now rewrite cut_at_append.
  - rewrite trim_slash_host by assumption.
    now rewrite splitN2_slash_none.
Qed.

(** ** Lookup *)

Lemma lookup_loop_none t fuel uri err :
  (forall k, MatchUri k t = None) -> lookup_loop fuel t uri err None = None.
Proof.
  intros Hnone. revert uri err. induction fuel as [|fuel IH]; intros uri err.
  - reflexivity.
  - cbn [lookup_loop]. destruct err; [reflexivity|].
    destruct (NextWildcard uri) as [uri' err']. rewrite Hnone. apply IH.
Qed.

Lemma PoolCount_NewTrie : PoolCount NewTrie = 0%nat.
Proof. unfold NewTrie. cbn [PoolCount]. now rewrite map_fold_empty. Qed.

Lemma EndpointCount_NewTrie : EndpointCount NewTrie = 0%nat.
Proof. unfold NewTrie. cbn [EndpointCount]. now rewrite map_fold_empty. Qed.

(** A new registry has no uri and no endpoint, and finds no pool for any
    uri, with or without instance. *)
Theorem NewRouteRegistry_empty lg c rep guid started endLookup now uri appID appIndex :
  fst (Lookup started endLookup uri (NewRouteRegistry lg c rep guid)) = None
  /\ fst (LookupWithInstance started endLookup now uri appID appIndex
            (NewRouteRegistry lg c rep guid)) = None
  /\ NumUris (NewRouteRegistry lg c rep guid) = 0%nat
  /\ NumEndpoints (NewRouteRegistry lg c rep guid) = 0%nat.
Proof.
  assert (Hnone : forall k, MatchUri k NewTrie = None)
    by (intros k; apply find_NewTrie).
  assert (HL : forall u,
             fst (Lookup started endLookup u (NewRouteRegistry lg c rep guid)) = None).
  { intros u. unfold Lookup. cbn [fst NewRouteRegistry byURI].
    rewrite Hnone. now apply lookup_loop_none. }
  split; [apply HL|]. split.
  - unfold LookupWithInstance. specialize (HL (RouteKey uri)).
    destruct (Lookup started endLookup (RouteKey uri) (NewRouteRegistry lg c rep guid))
      as [p r']. cbn [fst] in HL. now subst p.
  - split; [apply PoolCount_NewTrie|apply EndpointCount_NewTrie].
Qed.

(** The pool [Lookup] returns is a pool of the trie, stored at some key. *)
Lemma LookupOrder_stored t k p :
  LookupOrder t k (Some p) -> exists k', MatchUri k' t = Some p.
Proof.
  intros H. remember (Some p) as found eqn:E.
  induction H as [k q Hq|k k' found Hm Hn H IH|k k' Hm Hn].
  - injection E as ->. now exists k.
  - now apply IH.
  - discriminate.
Qed.

Lemma Lookup_order started endLookup uri r :
  LookupOrder (byURI r) (RouteKey uri) (fst (Lookup started endLookup uri r)).
Proof.
  unfold Lookup. cbn [fst]. apply lookup_loop_order.
  pose proof (wildcard_rank_le (RouteKey uri)). lia.
Qed.

(** Whatever calls a new registry has received, the pool [Lookup] returns
    for a uri is never empty. *)
Theorem Lookup_never_empty calls lg c rep guid started endLookup uri p :
  fst (Lookup started endLookup uri (run calls (NewRouteRegistry lg c rep guid)))
  = Some p ->
  IsEmpty p = false.
Proof.
  intros H.
  pose proof (Lookup_order started endLookup uri
                (run calls (NewRouteRegistry lg c rep guid))) as Ho.
  rewrite H in Ho. apply LookupOrder_stored in Ho as (k' & Hk).
  exact (run_pools_nonempty calls lg c rep guid _ _ Hk).
Qed.

(** ** Register and Unregister *)

Lemma logger_log lvl msg data r :
  logger (log lvl msg data r) = logger r ++ [mkLog lvl msg data].
Proof. reflexivity. Qed.

(** Every [Register] captures one registry message for the endpoint. Its
    log lines are [uri-added] and [endpoint-registered] when the route key
    had no pool (a new pool always takes the endpoint), and otherwise the
    one line that tells whether the pool took the endpoint. *)
Theorem Register_reports_and_logs now uri endpoint r :
  reporter (Register now uri endpoint r)
  = reporter r ++ [CaptureRegistryMessage endpoint]
  /\ List.map message (logger (Register now uri endpoint r))
     = List.map message (logger r)
       ++ match Find (RouteKey uri) (byURI r) with
          | None => ["uri-added"; "endpoint-registered"]
          | Some pool =>
              [if snd (Put now endpoint pool)
               then "endpoint-registered" else "endpoint-not-registered"]
          end.
Proof.
  unfold Register.
  destruct (Find (RouteKey uri) (byURI r)) as [pool|].
  - destruct (Put now endpoint pool) as [pool' added]. cbn [snd].
    destruct added; (split; [reflexivity|]);
      rewrite logger_log, map_app; reflexivity.
  - split; [reflexivity|].
    cbn. rewrite !map_app, <- app_assoc. reflexivity.
Qed.

(** [Register] and [Unregister] at a uri leave the pool of every other
    route key as it was. *)
Theorem other_routes_untouched now uri endpoint r k :
  k <> RouteKey uri ->
  Find k (byURI (Register now uri endpoint r)) = Find k (byURI r)
  /\ Find k (byURI (Unregister uri endpoint r)) = Find k (byURI r).
Proof.
  intros H. split.
  - now apply Register_Find_other.
  - now apply Unregister_Find_other.
Qed.

Lemma Remove_gone e p :
  existsb (fun x => same_addr x e) (endpoints (fst (Remove e p))) = false.
Proof.
  unfold Remove. cbn [fst with_endpoints endpoints].
  induction (endpoints p) as [|x l IH]; [reflexivity|].
  cbn [List.filter]. destruct (same_addr x e) eqn:E; cbn [negb].
  - exact IH.
  - cbn [existsb]. now rewrite E.
Qed.

(** After [Unregister(uri, endpoint)] the route key of the uri holds no
    endpoint with the canonical address of the endpoint. *)
Theorem Unregister_removes uri endpoint r :
  existsb (fun x => same_addr x endpoint)
    (endpoints_at (key_path (RouteKey uri)) (byURI (Unregister uri endpoint r)))
  = false.
Proof.
  unfold endpoints_at. rewrite Unregister_byURI.
  destruct (Find (RouteKey uri) (byURI r)) as [pool|] eqn:E.
  - cbn zeta. destruct (IsEmpty (fst (Remove endpoint pool))).
    + unfold Delete. now rewrite find_delete_same.
    + unfold Insert. rewrite find_insert_same. apply Remove_gone.
  - unfold Find in E. now rewrite E.
Qed.

Lemma Remove_all e p :
  forallb (fun x => same_addr x e) (endpoints p) = true ->
  IsEmpty (fst (Remove e p)) = true.
Proof.
  intros Hall. unfold Remove, IsEmpty. cbn [fst with_endpoints endpoints].
  induction (endpoints p) as [|x l IH]; [reflexivity|].
  cbn [forallb] in Hall. apply andb_true_iff in Hall as [Hx Hl].
  cbn [List.filter]. rewrite Hx. cbn [negb]. now apply IH.
Qed.

(** [Unregister] takes away the pool of a route key whose endpoints all
    have the canonical address of the endpoint: the key has no pool left,
    not an empty one. *)
Theorem Unregister_last_endpoint uri endpoint r pool :
  Find (RouteKey uri) (byURI r) = Some pool ->
  forallb (fun x => same_addr x endpoint) (endpoints pool) = true ->
  Find (RouteKey uri) (byURI (Unregister uri endpoint r)) = None.
Proof.
  intros Hp Hall. rewrite Unregister_byURI, Hp. cbn zeta.
  rewrite (Remove_all _ _ Hall). unfold Find, Delete. apply find_delete_same.
Qed.

(** A round trip: [Register] at a route key without pool and then
    [Unregister] of the same endpoint leave every path of the trie with
    the pool, or the absence of pool, it had. *)
Theorem Register_Unregister_round_trip now uri endpoint r path :
  Find (RouteKey uri) (byURI r) = None ->
  find_path path (byURI (Unregister uri endpoint (Register now uri endpoint r)))
  = find_path path (byURI r).
Proof.
  intros Hnone.
  assert (Hreg : Find (RouteKey uri) (byURI (Register now uri endpoint r))
                 = Some (fst (Put now endpoint
                                (NewPool (Z.quot (dropletStaleThreshold r) 4)
                                   (parseContextPath uri))))).
  { rewrite Register_byURI, Hnone. cbn zeta. apply Find_Insert_same. }
  assert (Hlast : Find (RouteKey uri) (byURI (Unregister uri endpoint
                                                (Register now uri endpoint r))) = None).
  { rewrite Unregister_byURI, Hreg. cbn zeta. rewrite Remove_all.
    - unfold Find, Delete. apply find_delete_same.
    - cbn. unfold same_addr. cbn. now rewrite String.eqb_refl. }
  destruct (decide (path = key_path (RouteKey uri))) as [->|Hne].
  - unfold Find in Hlast, Hnone. now rewrite Hlast, Hnone.
  - rewrite Unregister_byURI.
    destruct (Find (RouteKey uri) (byURI (Register now uri endpoint r))) as [pool|].
    + cbn zeta. destruct (IsEmpty (fst (Remove endpoint pool)));
        unfold Delete, Insert;
        rewrite ?find_delete_other, find_insert_other by exact Hne;
        rewrite Register_byURI, Hnone; cbn zeta; unfold Insert;
        now rewrite !find_insert_other by exact Hne.
    + rewrite Register_byURI, Hnone. cbn zeta. unfold Insert.
      now rewrite !find_insert_other by exact Hne.
Qed.

(** ** NumUris and NumEndpoints *)

Lemma PoolCount_eq p cs :
  PoolCount (mkTrie p cs)
  = ((match p with Some _ => 1 | None => 0 end)
     + map_fold (fun _ child acc => PoolCount child + acc) 0 cs)%nat.
Proof. reflexivity. Qed.

Lemma EndpointCount_eq p cs :
  EndpointCount (mkTrie p cs)
  = ((match p with Some pool => length (endpoints pool) | None => 0 end)
     + map_fold (fun _ child acc => EndpointCount child + acc) 0 cs)%nat.
Proof. reflexivity. Qed.

(** The sum over the children, with one child set apart. *)
Lemma children_sum_insert (count : Trie -> nat) seg c (cs : gmap string Trie) :
  map_fold (fun _ child acc => count child + acc)%nat 0%nat (<[seg := c]> cs)
  = (count c
     + map_fold (fun _ child acc => count child + acc)%nat 0%nat (delete seg cs))%nat.
Proof.
  rewrite <- insert_delete_eq.
  rewrite map_fold_insert_L; [reflexivity| |apply lookup_delete_eq].
  intros; lia.
Qed.

Lemma children_sum_lookup (count : Trie -> nat) seg c (cs : gmap string Trie) :
  cs !! seg = Some c ->
  map_fold (fun _ child acc => count child + acc)%nat 0%nat cs
  = (count c
     + map_fold (fun _ child acc => count child + acc)%nat 0%nat (delete seg cs))%nat.
Proof.
  intros E.
  apply (map_fold_delete_L (fun _ child acc => (count child + acc)%nat) 0%nat seg c cs);
    [|exact E].
  intros; lia.
Qed.

Lemma children_sum_absent (count : Trie -> nat) seg (cs : gmap string Trie) :
  cs !! seg = None ->
  map_fold (fun _ child acc => count child + acc)%nat 0%nat (delete seg cs)
  = map_fold (fun _ child acc => count child + acc)%nat 0%nat cs.
Proof. intros E. now rewrite delete_id. Qed.

Lemma PoolCount_insert_path path p t :
  PoolCount (insert_path path p t)
  = (PoolCount t + match find_path path t with None => 1 | Some _ => 0 end)%nat.
Proof.
  revert t. induction path as [|seg rest IH]; intros [np cs].
  - cbn [insert_path find_path NodePool ChildNodes]. rewrite !PoolCount_eq.
    destruct np; lia.
  - cbn [insert_path find_path NodePool ChildNodes]. rewrite !PoolCount_eq.
    rewrite children_sum_insert, IH.
    destruct (cs !! seg) as [c|] eqn:E; cbn [from_option id].
    + rewrite (children_sum_lookup PoolCount seg c cs E). lia.
    + rewrite (children_sum_absent PoolCount seg cs E).
      rewrite find_NewTrie, PoolCount_NewTrie. lia.
Qed.

Lemma removable_PoolCount t : removable t = true -> PoolCount t = 0%nat.
Proof.
  destruct t as [np cs]. unfold removable. cbn [NodePool ChildNodes].
  destruct np; [discriminate|]. intros H. apply bool_decide_eq_true in H. subst cs.
  apply PoolCount_NewTrie.
Qed.

Lemma PoolCount_delete_path path t :
  (PoolCount (delete_path path t)
   + match find_path path t with Some _ => 1 | None => 0 end)%nat
  = PoolCount t.
Proof.
  revert t. induction path as [|seg rest IH]; intros [np cs].
  - cbn [delete_path find_path NodePool ChildNodes]. rewrite !PoolCount_eq.
    destruct np; lia.
  - cbn [delete_path find_path NodePool ChildNodes].
    destruct (cs !! seg) as [c|] eqn:E; [|lia].
    rewrite !PoolCount_eq. specialize (IH c).
    rewrite (children_sum_lookup PoolCount seg c cs E).
    destruct (removable (delete_path rest c)) eqn:R.
    + apply removable_PoolCount in R. lia.
    + rewrite children_sum_insert. lia.
Qed.

(** [NumUris] counts the route keys that have a pool: [Register] adds one
    when the route key had none, and [Unregister] takes one away when it
    leaves the pool of the route key without endpoint. *)
Theorem NumUris_counts now uri endpoint r :
  NumUris (Register now uri endpoint r)
  = (NumUris r + match Find (RouteKey uri) (byURI r) with
                 | None => 1
                 | Some _ => 0
                 end)%nat
  /\ (NumUris (Unregister uri endpoint r)
      + match Find (RouteKey uri) (byURI r) with
        | Some pool => if IsEmpty (fst (Remove endpoint pool)) then 1 else 0
        | None => 0
        end)%nat
     = NumUris r.
Proof.
  unfold NumUris. split.
  - rewrite Register_byURI.
    destruct (Find (RouteKey uri) (byURI r)) as [pool|] eqn:E; cbn zeta;
      unfold Insert; rewrite !PoolCount_insert_path.
    + unfold Find in E. rewrite E. lia.
    + rewrite find_insert_same. unfold Find in E. rewrite E. lia.
  - rewrite Unregister_byURI.
    destruct (Find (RouteKey uri) (byURI r)) as [pool|] eqn:E; [|lia].
    cbn zeta. unfold Find in E.
    destruct (IsEmpty (fst (Remove endpoint pool))); unfold Delete, Insert.
    + pose proof (PoolCount_delete_path (key_path (RouteKey uri))
                    (insert_path (key_path (RouteKey uri))
                       (fst (Remove endpoint pool)) (byURI r))) as H.
      rewrite find_insert_same, PoolCount_insert_path, E in H. lia.
    + rewrite PoolCount_insert_path, E. lia.
Qed.

Lemma EndpointCount_insert_path path p t :
  (EndpointCount (insert_path path p t) + length (endpoints_at path t))%nat
  = (EndpointCount t + length (endpoints p))%nat.
Proof.
  unfold endpoints_at.
  revert t. induction path as [|seg rest IH]; intros [np cs].
  - cbn [insert_path find_path NodePool ChildNodes]. rewrite !EndpointCount_eq.
    destruct np; cbn [length]; lia.
  - cbn [insert_path find_path NodePool ChildNodes]. rewrite !EndpointCount_eq.
    rewrite children_sum_insert.
    destruct (cs !! seg) as [c|] eqn:E; cbn [from_option id].
    + rewrite (children_sum_lookup EndpointCount seg c cs E).
      specialize (IH c). lia.
    + rewrite (children_sum_absent EndpointCount seg cs E).
      specialize (IH NewTrie). rewrite find_NewTrie, EndpointCount_NewTrie in IH.
      cbn [length] in *. lia.
Qed.

Lemma removable_EndpointCount t : removable t = true -> EndpointCount t = 0%nat.
Proof.
  destruct t as [np cs]. unfold removable. cbn [NodePool ChildNodes].
  destruct np; [discriminate|]. intros H. apply bool_decide_eq_true in H. subst cs.
  apply EndpointCount_NewTrie.
Qed.

Lemma EndpointCount_delete_path path t :
  (EndpointCount (delete_path path t) + length (endpoints_at path t))%nat
  = EndpointCount t.
Proof.
  unfold endpoints_at.
  revert t. induction path as [|seg rest IH]; intros [np cs].
  - cbn [delete_path find_path NodePool ChildNodes]. rewrite !EndpointCount_eq.
    destruct np; cbn [length]; lia.
  - cbn [delete_path find_path NodePool ChildNodes].
    destruct (cs !! seg) as [c|] eqn:E; [|cbn [length]; lia].
    rewrite !EndpointCount_eq. specialize (IH c).
    rewrite (children_sum_lookup EndpointCount seg c cs E).
    destruct (removable (delete_path rest c)) eqn:R.
    + apply removable_EndpointCount in R. lia.
    + rewrite children_sum_insert. lia.
Qed.

Lemma put_endpoint_length now e es :
  length (fst (put_endpoint now e es))
  = (length es + if existsb (fun x => same_addr x e) es then 0 else 1)%nat.
Proof.
  induction es as [|x tl IH]; [reflexivity|].
  cbn [put_endpoint existsb]. destruct (same_addr x e); cbn [orb].
  - destruct (SucceededBy (ModTag x) (ModTag e)); cbn [fst length]; lia.
  - destruct (put_endpoint now e tl) as [tl' added]. cbn [fst length] in *. lia.
Qed.

Lemma Put_endpoints now e p :
  endpoints (fst (Put now e p)) = fst (put_endpoint now e (endpoints p)).
Proof. unfold Put. now destruct (put_endpoint now e (endpoints p)). Qed.

Lemma filter_split_length {A} (f : A -> bool) l :
  (length (List.filter f l) + length (List.filter (fun x => negb (f x)) l))%nat
  = length l.
Proof.
  induction l as [|x l IH]; [reflexivity|].
  cbn [List.filter]. destruct (f x); cbn [negb length]; lia.
Qed.

(** [NumEndpoints] counts the endpoints of all pools: [Register] adds one
    unless the route key already holds an endpoint with the canonical
    address, and [Unregister] takes away the endpoints of the route key that
    have the canonical address. *)
Theorem NumEndpoints_counts now uri endpoint r :
  NumEndpoints (Register now uri endpoint r)
  = (NumEndpoints r
     + if existsb (fun x => same_addr x endpoint)
            (endpoints_at (key_path (RouteKey uri)) (byURI r))
       then 0 else 1)%nat
  /\ (NumEndpoints (Unregister uri endpoint r)
      + length (List.filter (fun x => same_addr x endpoint)
                  (endpoints_at (key_path (RouteKey uri)) (byURI r))))%nat
     = NumEndpoints r.
Proof.
  unfold NumEndpoints. split.
  - rewrite Register_byURI.
    destruct (Find (RouteKey uri) (byURI r)) as [pool|] eqn:E; cbn zeta;
      unfold Insert, Find in *.
    + pose proof (EndpointCount_insert_path (key_path (RouteKey uri))
                    (fst (Put now endpoint pool)) (byURI r)) as H.
      rewrite Put_endpoints, put_endpoint_length in H.
      unfold endpoints_at in *. rewrite E in *. lia.
    + set (p0 := NewPool (Z.quot (dropletStaleThreshold r) 4) (parseContextPath uri)).
      pose proof (EndpointCount_insert_path (key_path (RouteKey uri)) p0 (byURI r)) as H1.
      pose proof (EndpointCount_insert_path (key_path (RouteKey uri))
                    (fst (Put now endpoint p0))
                    (insert_path (key_path (RouteKey uri)) p0 (byURI r))) as H2.
      unfold endpoints_at in *. rewrite find_insert_same in H2. rewrite E in *.
      cbn in H1, H2. cbn [existsb].
      change (fst (Put now endpoint p0))
        with (with_endpoints p0 [stamp now endpoint]).
      lia.
  - rewrite Unregister_byURI. unfold endpoints_at, Find.
    destruct (find_path (key_path (RouteKey uri)) (byURI r)) as [pool|] eqn:E;
      [|cbn [List.filter length]; lia].
    cbn zeta.
    pose proof (EndpointCount_insert_path (key_path (RouteKey uri))
                  (fst (Remove endpoint pool)) (byURI r)) as H1.
    unfold endpoints_at in H1. rewrite E in H1.
    pose proof (filter_split_length (fun x => same_addr x endpoint) (endpoints pool))
      as Hs.
    cbn beta in Hs.
    change (endpoints (fst (Remove endpoint pool)))
      with (List.filter (fun x => negb (same_addr x endpoint)) (endpoints pool)) in H1.
    destruct (IsEmpty (fst (Remove endpoint pool))) eqn:He; unfold Delete, Insert.
    + pose proof (EndpointCount_delete_path (key_path (RouteKey uri))
                    (insert_path (key_path (RouteKey uri))
                       (fst (Remove endpoint pool)) (byURI r))) as H2.
      unfold endpoints_at in H2. rewrite find_insert_same in H2.
      change (endpoints (fst (Remove endpoint pool)))
        with (List.filter (fun x => negb (same_addr x endpoint)) (endpoints pool)) in H2.
      unfold IsEmpty in He.
      change (endpoints (fst (Remove endpoint pool)))
        with (List.filter (fun x => negb (same_addr x endpoint)) (endpoints pool)) in He.
      destruct (List.filter (fun x => negb (same_addr x endpoint)) (endpoints pool));
        [|discriminate].
      cbn [length] in *. lia.
    + lia.
Qed.

(** ** One endpoint per canonical address *)

Lemma put_endpoint_addr_in now e es a :
  In a (List.map CanonicalAddr (fst (put_endpoint now e es))) ->
  a = CanonicalAddr e \/ In a (List.map CanonicalAddr es).
Proof.
  induction es as [|x tl IH]; cbn [put_endpoint].
  - cbn. intuition congruence.
  - destruct (same_addr x e) eqn:E.
    + apply String.eqb_eq in E.
      destruct (SucceededBy (ModTag x) (ModTag e)); cbn; intuition congruence.
    + destruct (put_endpoint now e tl) as [tl' added]. cbn in *. intuition congruence.
Qed.

Lemma put_endpoint_NoDup now e es :
  List.NoDup (List.map CanonicalAddr es) ->
  List.NoDup (List.map CanonicalAddr (fst (put_endpoint now e es))).
Proof.
  induction es as [|x tl IH]; cbn [put_endpoint]; intros Hnd.
  - cbn. constructor; [intros []|constructor].
  - cbn [List.map] in Hnd. apply List.NoDup_cons_iff in Hnd as [Hx Htl].
    destruct (same_addr x e) eqn:E.
    + apply String.eqb_eq in E.
      destruct (SucceededBy (ModTag x) (ModTag e)); cbn [fst List.map].
      * cbn [stamp CanonicalAddr]. rewrite <- E. now constructor.
      * now constructor.
    + pose proof (put_endpoint_addr_in now e tl (CanonicalAddr x)) as Hin.
      destruct (put_endpoint now e tl) as [tl' added]. cbn [fst List.map] in *.
      constructor; [|now apply IH].
      intros H. destruct (Hin H) as [Heq|Hold]; [|contradiction].
      unfold same_addr in E. apply String.eqb_neq in E. congruence.
Qed.

Lemma filter_NoDup_map {A B} (f : A -> B) (g : A -> bool) l :
  List.NoDup (List.map f l) -> List.NoDup (List.map f (List.filter g l)).
Proof.
  induction l as [|x l IH]; cbn [List.map List.filter]; intros Hnd; [exact Hnd|].
  apply List.NoDup_cons_iff in Hnd as [Hx Hl].
  destruct (g x); cbn [List.map]; [|now apply IH].
  constructor; [|now apply IH].
  intros H. apply Hx. apply in_map_iff in H as (y & Hy & Hin).
  apply List.filter_In in Hin as [Hin _]. apply in_map_iff. now exists y.
Qed.

Lemma map_stamp_addr t l :
  List.map CanonicalAddr (List.map (stamp t) l) = List.map CanonicalAddr l.
Proof. rewrite List.map_map. reflexivity. Qed.

Lemma Register_pools_distinct now uri endpoint r :
  pools_distinct (byURI r) -> pools_distinct (byURI (Register now uri endpoint r)).
Proof.
  intros Hwf path p. rewrite Register_byURI.
  destruct (decide (path = key_path (RouteKey uri))) as [->|Hne].
  - destruct (Find (RouteKey uri) (byURI r)) as [pool|] eqn:E; cbn zeta;
      unfold Insert; rewrite find_insert_same; intros H; injection H as <-.
    + rewrite Put_endpoints. apply put_endpoint_NoDup. exact (Hwf _ _ E).
    + cbn. constructor; [intros []|constructor].
  - destruct (Find (RouteKey uri) (byURI r)); cbn zeta; unfold Insert;
      rewrite !find_insert_other by exact Hne; apply Hwf.
Qed.

Lemma Unregister_pools_distinct uri endpoint r :
  pools_distinct (byURI r) -> pools_distinct (byURI (Unregister uri endpoint r)).
Proof.
  intros Hwf path p. rewrite Unregister_byURI.
  destruct (Find (RouteKey uri) (byURI r)) as [pool|] eqn:E; [|apply Hwf]. cbn zeta.
  destruct (decide (path = key_path (RouteKey uri))) as [->|Hne].
  - destruct (IsEmpty (fst (Remove endpoint pool))); unfold Delete, Insert.
    + now rewrite find_delete_same.
    + rewrite find_insert_same. intros H; injection H as <-.
      apply filter_NoDup_map. exact (Hwf _ _ E).
  - destruct (IsEmpty (fst (Remove endpoint pool))); unfold Delete, Insert.
    + rewrite find_delete_other, find_insert_other by exact Hne. apply Hwf.
    + rewrite find_insert_other by exact Hne. apply Hwf.
Qed.

Lemma pruneStaleDroplets_pools_distinct freshened clock r :
  pools_distinct (byURI r) ->
  pools_distinct (byURI (pruneStaleDroplets freshened clock r)).
Proof.
  intros Hwf path p. rewrite pruneStaleDroplets_byURI.
  destruct (suspendPruning r tt); [apply Hwf|].
  rewrite find_each_pool_snip. cbn [app].
  destruct (PruneStatus_eqb (pruningStatus r) DISCONNECTED).
  - rewrite find_each_pool.
    destruct (find_path path (byURI r)) as [q|] eqn:E; cbn [fmap option_fmap option_map];
      [|discriminate].
    destruct (IsEmpty _); [discriminate|]. intros H; injection H as <-.
    cbn [PruneEndpoints fst with_endpoints endpoints MarkUpdated].
    apply filter_NoDup_map. rewrite map_stamp_addr. exact (Hwf _ _ E).
  - destruct (find_path path (byURI r)) as [q|] eqn:E; [|discriminate].
    destruct (IsEmpty _); [discriminate|]. intros H; injection H as <-.
    cbn [PruneEndpoints fst with_endpoints endpoints].
    apply filter_NoDup_map. exact (Hwf _ _ E).
Qed.

Lemma call_pools_distinct c r :
  pools_distinct (byURI r) -> pools_distinct (byURI (call c r)).
Proof.
  intros Hwf.
  destruct c as [now' u' e'|u' e'|s t u'|s t n u' a i|f| |fr ck sn]; cbn [call].
  - now apply Register_pools_distinct.
  - now apply Unregister_pools_distinct.
  - exact Hwf.
  - now rewrite LookupWithInstance_byURI.
  - exact Hwf.
  - unfold StartPruningCycle. now destruct (0 <? _).
  - rewrite prune_tick_byURI. now apply pruneStaleDroplets_pools_distinct.
Qed.

(** Whatever calls a new registry receives ([Register], [Unregister], the
    lookups, [SuspendPruning], [StartPruningCycle], prune ticks), no pool
    of its trie has two endpoints with the same canonical address. *)
Theorem run_pools_distinct calls lg c rep guid :
  pools_distinct (byURI (run calls (NewRouteRegistry lg c rep guid))).
Proof.
  assert (H0 : pools_distinct (byURI (NewRouteRegistry lg c rep guid))).
  { intros path p. cbn [NewRouteRegistry byURI]. now rewrite find_NewTrie. }
  revert H0. generalize (NewRouteRegistry lg c rep guid).
  induction calls as [|x calls IH]; intros r Hr; [exact Hr|].
  cbn. apply IH. now apply call_pools_distinct.
Qed.

(** ** Pruning *)



(** A prune tick never moves the time of the last update; it prunes as
    [pruneStaleDroplets] does and then reports the route statistics once,
    with the number of uris left after the prune and an unsigned 64-bit
    number of milliseconds; its log starts with [start-pruning-routes] and
    ends with [finished-pruning-routes]. *)
Theorem prune_tick_reports freshened clock since r :
  timeOfLastUpdate (prune_tick freshened clock since r) = timeOfLastUpdate r
  /\ (exists ms,
         0 <= ms < 2 ^ 64
         /\ reporter (prune_tick freshened clock since r)
            = reporter r
              ++ [CaptureRouteStats (NumUris (pruneStaleDroplets freshened clock r))
                    ms])
  /\ byURI (prune_tick freshened clock since r)
     = byURI (pruneStaleDroplets freshened clock r)
  /\ exists lines,
       List.map message (logger (prune_tick freshened clock since r))
       = List.map message (logger r)
         ++ ["start-pruning-routes"] ++ lines ++ ["finished-pruning-routes"].
Proof.
  split; [apply prune_tick_timeOfLastUpdate|].
  split; [|split; [apply prune_tick_byURI|]].
  - unfold prune_tick, TimeOfLastUpdate, NumUris.
    set (r0 := log InfoLevel "start-pruning-routes" [] r).
    assert (Hb : byURI (pruneStaleDroplets freshened clock r0)
                 = byURI (pruneStaleDroplets freshened clock r)).
    { now rewrite !pruneStaleDroplets_byURI. }
    cbn [timeOfLastUpdate reporter byURI report set_reporter log set_logger logger].
    rewrite pruneStaleDroplets_reporter, Hb.
    eexists. split; [|reflexivity]. apply Z.mod_pos_bound. reflexivity.
  - unfold prune_tick.
    set (r0 := log InfoLevel "start-pruning-routes" [] r).
    assert (Hl : exists lines,
               logger (pruneStaleDroplets freshened clock r0) = logger r0 ++ lines).
    { unfold pruneStaleDroplets. destruct (suspendPruning r0 tt).
      - eexists. reflexivity.
      - destruct (PruneStatus_eqb (pruningStatus r0) DISCONNECTED).
        + eexists. cbn [logger set_logger log freshenRoutes set_byURI
                        set_pruningStatus].
          rewrite <- !app_assoc. reflexivity.
        + eexists. reflexivity. }
    cbn [report set_reporter log set_logger logger].
    destruct Hl as (lines & Hl). exists (List.map message lines).
    rewrite Hl. unfold r0. rewrite logger_log, !map_app, <- !app_assoc. reflexivity.
Qed.

(** * Further properties of the round-tripper *)

(** Normal mode: an attempt whose transport call succeeds ends the loop
    with the response, the endpoint tried and one more routing request. *)
Lemma retry_loop_success rt request n st r :
  snapshot (iter st) <> [] ->
  (forall rq, transport rt (length (transportCalls (effects st))) rq = (r, None)) ->
  exists e,
    In e (snapshot (iter st))
    /\ endpoint (retry_loop (S n) rt None request st) = Some e
    /\ res (retry_loop (S n) rt None request st) = r
    /\ err (retry_loop (S n) rt None request st) = None
    /\ effects (retry_loop (S n) rt None request st)
       = mkEffects (transportCalls (effects st) ++ [to_endpoint e request])
                   (reporterCalls (effects st) ++ [CaptureRoutingRequest e])
                   (logLines (effects st)).
Proof.
  intros Hne Ht. cbn [retry_loop].
  destruct (Next_nonempty (iter st) Hne) as (e & HN & Hin & _).
  destruct (Next (iter st)) as [ep it']. cbn [fst] in HN. subst ep.
  unfold call_transport. cbn [transportCalls add_report]. rewrite Ht.
  exists e. repeat split; assumption.
Qed.

(** Normal mode, a pool of one endpoint: an attempt whose transport call
    fails with a retryable error logs [backend-endpoint-failed] and leaves
    the rest of the attempts to the same endpoint. *)
Lemma retry_loop_step_fail rt request e n st r f :
  snapshot (iter st) = [e] ->
  transport rt (length (transportCalls (effects st))) (to_endpoint e request)
  = (r, Some f) ->
  retryableError f = true ->
  exists it',
    snapshot it' = [e]
    /\ retry_loop (S n) rt None request st
       = retry_loop n rt None request
           (mkLoop it' (Some e) r (Some f)
              (mkEffects (transportCalls (effects st) ++ [to_endpoint e request])
                         (reporterCalls (effects st) ++ [CaptureRoutingRequest e])
                         (logLines (effects st)
                          ++ [error_line "backend-endpoint-failed" f]))).
Proof.
  intros Hsnap Ht Hr. cbn [retry_loop].
  destruct (Next_single _ _ Hsnap) as [HN Hs].
  destruct (Next (iter st)) as [ep it']. cbn [fst snd] in HN, Hs. subst ep.
  unfold call_transport. cbn [transportCalls add_report]. rewrite Ht, Hr.
  exists (EndpointFailed it'). split; [now rewrite EndpointFailed_snapshot|].
  reflexivity.
Qed.

(** When the first call of the transport succeeds, for a request without
    route-service URL whose pool has an endpoint: [RoundTrip] returns no
    error, leaves the response writer alone, captures one routing request,
    for an endpoint of the pool that the access log record then names,
    and no bad gateway, and logs neither [backend-endpoint-failed] nor
    [route-service-connection-failed]. Without the trace key in the
    request, the response is the one of the transport, as it is. *)
Theorem RoundTrip_success rt request pool rw alr r :
  ctxRoutePool (Ctx request) = Some pool ->
  ctxProxyResponseWriter (Ctx request) = Some rw ->
  ctxAccessLogRecord (Ctx request) = Some alr ->
  ctxRouteServiceURL (Ctx request) = None ->
  endpoints pool <> [] ->
  (forall rq, transport rt 0%nat rq = (r, None)) ->
  failure (RoundTrip rt request) = None
  /\ writer (RoundTrip rt request) = Some rw
  /\ bad_gateways (reporterCalls (after (RoundTrip rt request))) = 0%nat
  /\ (logged "backend-endpoint-failed" (logLines (after (RoundTrip rt request)))
      = false
      /\ logged "route-service-connection-failed"
           (logLines (after (RoundTrip rt request))) = false)
  /\ (exists e,
         In e (endpoints pool)
         /\ transportCalls (after (RoundTrip rt request)) = [to_endpoint e request]
         /\ routing_requests (reporterCalls (after (RoundTrip rt request))) = [e]
         /\ record (RoundTrip rt request)
            = Some (mkRecord (LoggedStatusCode alr) (Some e)))
  /\ (header_get VcapTraceHeader (ReqHeader request) <> traceKey rt ->
      returned (RoundTrip rt request) = r).
Proof.
  intros Hpool Hrw Halr Hrs Hne Ht.
  unfold RoundTrip. rewrite Hpool, Hrw, Halr, Hrs. change MaxRetries with 3%nat.
  destruct (retry_loop_success rt request 2
              (mkLoop (Iterator pool) None None None no_effects) r Hne Ht)
    as (e & Hin & He & Hres & Herr & Hfx).
  rewrite Herr. cbn [failure writer after record returned]. rewrite Hfx, He, Hres.
  cbn [reporterCalls transportCalls logLines no_effects app].
  do 3 (split; [reflexivity|]). split; [split; reflexivity|]. split.
  - exists e. repeat split. exact Hin.
  - intros Hk. unfold setTraceHeaders. destruct r as [resp|]; [|reflexivity].
    apply String.eqb_neq in Hk. now rewrite Hk.
Qed.

(** When the request carries the trace key and the first call of the
    transport answers, the response returned has the status of the answer,
    the router address in [X-Vcap-Router] and, in [X-Vcap-Backend] and
    [X-Cf-RouteEndpoint], the canonical address of the endpoint used: the
    endpoint of the pool the transport was called with, the one the access
    log record names. *)
Theorem RoundTrip_trace_headers rt request pool rw alr resp :
  ctxRoutePool (Ctx request) = Some pool ->
  ctxProxyResponseWriter (Ctx request) = Some rw ->
  ctxAccessLogRecord (Ctx request) = Some alr ->
  ctxRouteServiceURL (Ctx request) = None ->
  endpoints pool <> [] ->
  (forall rq, transport rt 0%nat rq = (Some resp, None)) ->
  header_get VcapTraceHeader (ReqHeader request) = traceKey rt ->
  exists e out,
    In e (endpoints pool)
    /\ transportCalls (after (RoundTrip rt request)) = [to_endpoint e request]
    /\ record (RoundTrip rt request)
       = Some (mkRecord (LoggedStatusCode alr) (Some e))
    /\ returned (RoundTrip rt request) = Some out
    /\ StatusCode out = StatusCode resp
    /\ header_get VcapRouterHeader (RespHeader out) = routerIP rt
    /\ header_get VcapBackendHeader (RespHeader out) = CanonicalAddr e
    /\ header_get CfRouteEndpointHeader (RespHeader out) = CanonicalAddr e.
Proof.
  intros Hpool Hrw Halr Hrs Hne Ht Hk.
  unfold RoundTrip. rewrite Hpool, Hrw, Halr, Hrs. change MaxRetries with 3%nat.
  destruct (retry_loop_success rt request 2
              (mkLoop (Iterator pool) None None None no_effects) (Some resp) Hne Ht)
    as (e & Hin & He & Hres & Herr & Hfx).
  rewrite Herr. cbn [returned after record]. rewrite He, Hres, Hfx.
  cbn [transportCalls no_effects app].
  unfold setTraceHeaders. rewrite Hk, String.eqb_refl.
  exists e. eexists. split; [exact Hin|]. do 3 (split; [reflexivity|]).
  repeat split.
Qed.

(** When the first call of the transport fails with a retryable error and
    the second succeeds, for a request without route-service URL whose pool
    holds one endpoint: [RoundTrip] calls the transport twice, returns no
    error, leaves the response writer alone, captures two routing requests
    for the endpoint and no bad gateway, names the endpoint in the access
    log record and logs [backend-endpoint-failed] once. *)
Theorem RoundTrip_retry_then_success rt request pool e rw alr r0 f r1 :
  ctxRoutePool (Ctx request) = Some pool ->
  endpoints pool = [e] ->
  ctxProxyResponseWriter (Ctx request) = Some rw ->
  ctxAccessLogRecord (Ctx request) = Some alr ->
  ctxRouteServiceURL (Ctx request) = None ->
  (forall rq, transport rt 0%nat rq = (r0, Some f)) ->
  retryableError f = true ->
  (forall rq, transport rt 1%nat rq = (r1, None)) ->
  failure (RoundTrip rt request) = None
  /\ returned (RoundTrip rt request) = setTraceHeaders rt request (Some e) r1
  /\ transportCalls (after (RoundTrip rt request))
     = [to_endpoint e request; to_endpoint e request]
  /\ writer (RoundTrip rt request) = Some rw
  /\ routing_requests (reporterCalls (after (RoundTrip rt request))) = [e; e]
  /\ bad_gateways (reporterCalls (after (RoundTrip rt request))) = 0%nat
  /\ record (RoundTrip rt request) = Some (mkRecord (LoggedStatusCode alr) (Some e))
  /\ List.map message (logLines (after (RoundTrip rt request)))
     = ["backend-endpoint-failed"].
Proof.
  intros Hpool He Hrw Halr Hrs H0 Hr H1.
  unfold RoundTrip. rewrite Hpool, Hrw, Halr, Hrs. change MaxRetries with 3%nat.
  destruct (retry_loop_step_fail rt request e 2
              (mkLoop (Iterator pool) None None None no_effects) r0 f)
    as (it' & Hs & ->); [exact He|apply H0|exact Hr|].
  cbn [effects transportCalls reporterCalls logLines no_effects app].
  match goal with
  | |- context [retry_loop 2 rt None request ?s] =>
      destruct (retry_loop_success rt request 1 s r1)
        as (e' & Hin & He' & Hres & Herr & Hfx)
  end.
  { cbn [iter]. rewrite Hs. discriminate. }
  { intros rq. apply H1. }
  cbn [iter] in Hin. rewrite Hs in Hin. destruct Hin as [<-|[]].
  rewrite Herr. cbn [failure returned after writer record].
  rewrite He', Hres, Hfx. cbn. repeat split.
Qed.

(** The lines of a log that carry a message, when the messages of the log
    are that message [n] times. *)
Lemma count_messages msg (l : list LogEntry) n :
  List.map message l = repeat msg n ->
  length (List.filter (fun x => String.eqb (message x) msg) l) = n.
Proof.
  revert l. induction n as [|n IH]; intros [|x l] H; try discriminate.
  - reflexivity.
  - cbn [List.map repeat] in H. injection H as Hx Hl.
    cbn [List.filter]. rewrite Hx, String.eqb_refl. cbn [length].
    f_equal. now apply IH.
Qed.

(** When every call of the transport fails with a retryable error (a dial
    failure, a connection reset by peer), for a request without
    route-service URL whose pool holds one endpoint: [RoundTrip] gives up
    after [MaxRetries] calls, writes the canonical 502, captures one bad
    gateway, and has logged [backend-endpoint-failed] once per call. *)
Theorem RoundTrip_retryable_exhausted rt request pool e rw alr :
  ctxRoutePool (Ctx request) = Some pool ->
  endpoints pool = [e] ->
  ctxProxyResponseWriter (Ctx request) = Some rw ->
  ctxAccessLogRecord (Ctx request) = Some alr ->
  ctxRouteServiceURL (Ctx request) = None ->
  (forall k rq, exists r f,
      transport rt k rq = (r, Some f) /\ retryableError f = true) ->
  length (transportCalls (after (RoundTrip rt request))) = MaxRetries
  /\ writer (RoundTrip rt request) = Some (write_bad_gateway rw)
  /\ record (RoundTrip rt request) = Some (mkRecord StatusBadGateway (Some e))
  /\ bad_gateways (reporterCalls (after (RoundTrip rt request))) = 1%nat
  /\ failure (RoundTrip rt request)
     = snd (transport rt (MaxRetries - 1)%nat (to_endpoint e request))
  /\ returned (RoundTrip rt request) = None
  /\ length (List.filter
               (fun l => String.eqb (message l) "backend-endpoint-failed")
               (logLines (after (RoundTrip rt request))))
     = MaxRetries.
Proof.
  intros Hpool He Hrw Halr Hrs Hfail.
  unfold RoundTrip. rewrite Hpool, Hrw, Halr, Hrs.
  destruct (retry_loop_single_fail rt request e MaxRetries
              (mkLoop (Iterator pool) None None None no_effects))
    as (H1 & H2 & H3 & _ & H5).
  { exact He. }
  { intros k. apply Hfail. }
  destruct H5 as [H5 H6]; [discriminate|].
  cbn [effects transportCalls reporterCalls logLines no_effects app length Nat.add
       List.map] in H1, H2, H3, H6.
  destruct (Hfail (MaxRetries - 1)%nat (to_endpoint e request)) as (r & f & Ht & _).
  rewrite H6, Ht. cbn [snd failure writer record after returned].
  rewrite H5. cbn [add_report transportCalls reporterCalls logLines].
  rewrite H1, H2. do 6 (split; [reflexivity|]).
  now apply (count_messages "backend-endpoint-failed").
Qed.

(** Route-service mode, every call of the transport failing with a
    retryable error: [RoundTrip] calls the transport [MaxRetries] times
    with the request aimed at the route-service URL, writes the canonical
    502 and stamps the access log record with 502, captures one bad gateway
    and no routing request, and logs [route-service-connection-failed] once
    per call and never [backend-endpoint-failed]. *)
Theorem RoundTrip_route_service_exhausted rt request pool rw alr url :
  ctxRoutePool (Ctx request) = Some pool ->
  ctxProxyResponseWriter (Ctx request) = Some rw ->
  ctxAccessLogRecord (Ctx request) = Some alr ->
  ctxRouteServiceURL (Ctx request) = Some url ->
  (forall k rq, exists r f,
      transport rt k rq = (r, Some f) /\ retryableError f = true) ->
  transportCalls (after (RoundTrip rt request))
  = repeat (with_url url request) MaxRetries
  /\ writer (RoundTrip rt request) = Some (write_bad_gateway rw)
  /\ (exists ep, record (RoundTrip rt request) = Some (mkRecord StatusBadGateway ep))
  /\ bad_gateways (reporterCalls (after (RoundTrip rt request))) = 1%nat
  /\ routing_requests (reporterCalls (after (RoundTrip rt request))) = []
  /\ failure (RoundTrip rt request)
     = snd (transport rt (MaxRetries - 1)%nat (with_url url request))
  /\ returned (RoundTrip rt request) = None
  /\ List.map message (logLines (after (RoundTrip rt request)))
     = repeat "route-service-connection-failed" MaxRetries.
Proof.
  intros Hpool Hrw Halr Hrs Hfail.
  unfold RoundTrip. rewrite Hpool, Hrw, Halr, Hrs.
  destruct (retry_loop_route_service_fail rt request url MaxRetries
              (mkLoop (Iterator pool) None None None no_effects))
    as (H1 & H2 & H3 & _ & H5).
  { intros k. apply Hfail. }
  specialize (H5 ltac:(discriminate)).
  cbn [effects transportCalls reporterCalls logLines no_effects app length Nat.add
       List.map] in H1, H2, H3, H5.
  destruct (Hfail (MaxRetries - 1)%nat (with_url url request)) as (r & f & Ht & _).
  rewrite H5, Ht. cbn [snd failure writer record after returned].
  cbn [add_report transportCalls reporterCalls logLines].
  rewrite H1, H2, H3. repeat split. eexists. reflexivity.
Qed.

(** Route-service mode, the first call of the transport succeeding:
    [RoundTrip] calls the transport once, with the request aimed at the
    route-service URL, returns no error, captures neither a routing request
    nor a bad gateway, and logs [response] with the status code exactly when
    there is a response whose status is not 2xx. *)
Theorem RoundTrip_route_service_success rt request pool rw alr url r :
  ctxRoutePool (Ctx request) = Some pool ->
  ctxProxyResponseWriter (Ctx request) = Some rw ->
  ctxAccessLogRecord (Ctx request) = Some alr ->
  ctxRouteServiceURL (Ctx request) = Some url ->
  (forall rq, transport rt 0%nat rq = (r, None)) ->
  failure (RoundTrip rt request) = None
  /\ transportCalls (after (RoundTrip rt request)) = [with_url url request]
  /\ reporterCalls (after (RoundTrip rt request)) = []
  /\ writer (RoundTrip rt request) = Some rw
  /\ logLines (after (RoundTrip rt request))
     = match r with
       | Some resp =>
           if (StatusCode resp <? 200) || (300 <=? StatusCode resp)
           then [mkLog InfoLevel "response" [("status-code", VInt (StatusCode resp))]]
           else []
       | None => []
       end.
Proof.
  intros Hpool Hrw Halr Hrs Ht.
  unfold RoundTrip. rewrite Hpool, Hrw, Halr, Hrs. change MaxRetries with 3%nat.
  cbn [retry_loop]. unfold call_transport.
  cbn [effects transportCalls no_effects length]. rewrite Ht.
  cbn [err failure after writer effects].
  destruct r as [resp|]; [|repeat split].
  destruct ((StatusCode resp <? 200) || (300 <=? StatusCode resp)); repeat split.
Qed.

Lemma bad_gateways_routing l e :
  bad_gateways (l ++ [CaptureRoutingRequest e]) = bad_gateways l.
Proof.
  unfold bad_gateways. rewrite List.filter_app, length_app. cbn. lia.
Qed.

Lemma bad_gateways_bad l : bad_gateways (l ++ [CaptureBadGateway]) = S (bad_gateways l).
Proof.
  unfold bad_gateways. rewrite List.filter_app, length_app. cbn. lia.
Qed.

Lemma routing_requests_routing l e :
  routing_requests (l ++ [CaptureRoutingRequest e]) = routing_requests l ++ [e].
Proof. unfold routing_requests. now rewrite flat_map_app. Qed.

Lemma routing_requests_bad l :
  routing_requests (l ++ [CaptureBadGateway]) = routing_requests l.
Proof. unfold routing_requests. rewrite flat_map_app. cbn. now rewrite app_nil_r. Qed.

(** The loop calls the transport at most once per attempt, captures no bad
    gateway and, in normal mode, captures one routing request per call of
    the transport. *)
Lemma retry_loop_bounds rt routeServiceURL request n : forall st,
  (length (transportCalls (effects (retry_loop n rt routeServiceURL request st)))
   <= length (transportCalls (effects st)) + n)%nat
  /\ bad_gateways (reporterCalls (effects (retry_loop n rt routeServiceURL request st)))
     = bad_gateways (reporterCalls (effects st))
  /\ (routeServiceURL = None ->
      (length (routing_requests
                 (reporterCalls (effects (retry_loop n rt routeServiceURL request st))))
       + length (transportCalls (effects st)))%nat
      = (length (routing_requests (reporterCalls (effects st)))
         + length (transportCalls
                     (effects (retry_loop n rt routeServiceURL request st))))%nat).
Proof.
  induction n as [|n IH]; intros st.
  - cbn [retry_loop]. repeat split; lia.
  - cbn [retry_loop]. destruct routeServiceURL as [url|].
    + unfold call_transport.
      destruct (transport rt (length (transportCalls (effects st)))
                  (with_url url request)) as [r [f|]].
      * destruct (retryableError f).
        -- match goal with
           | |- context [retry_loop n rt (Some url) request ?s] =>
               destruct (IH s) as (H1 & H2 & _)
           end.
           cbn [effects transportCalls reporterCalls add_line] in H1, H2 |- *.
           rewrite length_app in H1. cbn [length] in H1.
           repeat split; try lia; try assumption. discriminate.
        -- cbn [effects transportCalls reporterCalls]. rewrite length_app.
           cbn [length]. repeat split; try lia. discriminate.
      * assert (Hfx : forall fx (l : list LogEntry),
                   transportCalls
                     (match r with
                      | Some r0 =>
                          if (StatusCode r0 <? 200) || (300 <=? StatusCode r0)
                          then add_line (mkLog InfoLevel "response"
                                           [("status-code", VInt (StatusCode r0))]) fx
                          else fx
                      | None => fx
                      end) = transportCalls fx
                   /\ reporterCalls
                        (match r with
                         | Some r0 =>
                             if (StatusCode r0 <? 200) || (300 <=? StatusCode r0)
                             then add_line (mkLog InfoLevel "response"
                                              [("status-code", VInt (StatusCode r0))]) fx
                             else fx
                         | None => fx
                         end) = reporterCalls fx).
        { intros fx _. destruct r as [r0|]; [|now split].
          destruct ((StatusCode r0 <? 200) || (300 <=? StatusCode r0)); now split. }
        cbn [effects].
        match goal with
        | |- context [transportCalls (match r with Some _ => _ | None => ?fx end)] =>
            destruct (Hfx fx []) as [-> ->]
        end.
        cbn [transportCalls reporterCalls]. rewrite length_app. cbn [length].
        repeat split; try lia. discriminate.
    + destruct (Next (iter st)) as [[e|] it'].
      * unfold call_transport. cbn [transportCalls add_report].
        destruct (transport rt (length (transportCalls (effects st)))
                    (to_endpoint e request)) as [r [f|]].
        -- destruct (retryableError f).
           ++ match goal with
              | |- context [retry_loop n rt None request ?s] =>
                  destruct (IH s) as (H1 & H2 & H3)
              end.
              specialize (H3 eq_refl).
              cbn [effects transportCalls reporterCalls add_line add_report]
                in H1, H2, H3 |- *.
              rewrite length_app in H1, H3. cbn [length] in H1, H3.
              rewrite bad_gateways_routing in H2.
              rewrite routing_requests_routing, length_app in H3. cbn [length] in H3.
              repeat split; try lia; try assumption.
           ++ cbn [effects transportCalls reporterCalls add_report].
              rewrite bad_gateways_routing, routing_requests_routing, !length_app.
              cbn [length]. repeat split; lia.
        -- cbn [effects transportCalls reporterCalls add_report].
           rewrite bad_gateways_routing, routing_requests_routing, !length_app.
           cbn [length]. repeat split; lia.
      * cbn [effects]. repeat split; lia.
Qed.

(** Whatever the transport does and whatever the request carries,
    [RoundTrip] calls the transport at most [MaxRetries] times, never
    returns a response next to an error, captures at most one bad gateway,
    and none without an error; without route-service URL it captures one
    routing request per call of the transport. *)
Theorem RoundTrip_bounds rt request :
  (length (transportCalls (after (RoundTrip rt request))) <= MaxRetries)%nat
  /\ (failure (RoundTrip rt request) = None \/ returned (RoundTrip rt request) = None)
  /\ bad_gateways (reporterCalls (after (RoundTrip rt request)))
     = match failure (RoundTrip rt request) with
       | None => 0%nat
       | Some _ =>
           match ctxRoutePool (Ctx request), ctxProxyResponseWriter (Ctx request),
                 ctxAccessLogRecord (Ctx request) with
           | Some _, Some _, Some _ => 1%nat
           | _, _, _ => 0%nat
           end
       end
  /\ (ctxRouteServiceURL (Ctx request) = None ->
      length (routing_requests (reporterCalls (after (RoundTrip rt request))))
      = length (transportCalls (after (RoundTrip rt request)))).
Proof.
  unfold RoundTrip.
  destruct (ctxRoutePool (Ctx request)) as [pool|];
    [|cbn; repeat split; try lia; now right].
  destruct (ctxProxyResponseWriter (Ctx request)) as [rw|];
    [|cbn; repeat split; try lia; now right].
  destruct (ctxAccessLogRecord (Ctx request)) as [alr|];
    [|cbn; repeat split; try lia; now right].
  destruct (retry_loop_bounds rt (ctxRouteServiceURL (Ctx request)) request MaxRetries
              (mkLoop (Iterator pool) None None None no_effects)) as (H1 & H2 & H3).
  cbn [effects transportCalls reporterCalls no_effects length routing_requests
       flat_map bad_gateways List.filter Nat.add] in H1, H2, H3.
  destruct (err (retry_loop MaxRetries rt (ctxRouteServiceURL (Ctx request)) request
                   (mkLoop (Iterator pool) None None None no_effects))) as [f|].
  - cbn [after failure returned add_report transportCalls reporterCalls].
    rewrite bad_gateways_bad, routing_requests_bad.
    fold (bad_gateways
            (reporterCalls
               (effects (retry_loop MaxRetries rt (ctxRouteServiceURL (Ctx request))
                           request (mkLoop (Iterator pool) None None None no_effects)))))
      in H2.
    rewrite H2. repeat split; try lia; [now right|].
    intros Hrs. specialize (H3 Hrs). lia.
  - cbn [after failure returned].
    fold (bad_gateways
            (reporterCalls
               (effects (retry_loop MaxRetries rt (ctxRouteServiceURL (Ctx request))
                           request (mkLoop (Iterator pool) None None None no_effects)))))
      in H2.
    rewrite H2. repeat split; try lia; [now left|].
    intros Hrs. specialize (H3 Hrs). lia.
Qed.

(** * Instances of the further properties *)

Lemma parseContextPath_host_path_witness :
  parseContextPath "foo.com/path1/path2" = "/path1/path2"%string
  /\ parseContextPath "foo.com/path1/path2?q=1" = "/path1/path2"%string
  /\ parseContextPath "foo.com" = "/"%string.
Proof.
  apply (parseContextPath_host_path "foo.com" "path1/path2" "q=1");
    [discriminate|reflexivity|reflexivity].
Defined.

Lemma Lookup_never_empty_witness :
  exists p,
    fst (Lookup 1 2 "foo.com"
           (run [CallRegister 0 "foo.com" Sample.endpoint]
                (NewRouteRegistry [] (mkConfig 0 10) [] ""))) = Some p
    /\ IsEmpty p = false.
Proof.
  eexists. split; [vm_compute; reflexivity|].
  apply (Lookup_never_empty [CallRegister 0 "foo.com" Sample.endpoint]
           [] (mkConfig 0 10) [] "" 1 2 "foo.com").
  vm_compute. reflexivity.
Defined.

Lemma other_routes_untouched_witness :
  "bar.com"%string <> RouteKey "foo.com"
  /\ Find "bar.com" (byURI (Register 7 "foo.com" Sample.other Sample.single))
     = Find "bar.com" (byURI Sample.single)
  /\ Find "bar.com" (byURI (Unregister "foo.com" Sample.endpoint Sample.single))
     = Find "bar.com" (byURI Sample.single).
Proof.
  split; [vm_compute; discriminate|].
  split.
  - apply (other_routes_untouched 7 "foo.com" Sample.other Sample.single "bar.com").
    vm_compute. discriminate.
  - apply (other_routes_untouched 7 "foo.com" Sample.endpoint Sample.single "bar.com").
    vm_compute. discriminate.
Defined.

Lemma Unregister_last_endpoint_witness :
  Find (RouteKey "foo.com") (byURI Sample.single)
  = Some (fst (Put 0 Sample.endpoint (NewPool 2 "/")))
  /\ Find (RouteKey "foo.com")
       (byURI (Unregister "foo.com" Sample.endpoint Sample.single)) = None.
Proof.
  split; [vm_compute; reflexivity|].
  apply (Unregister_last_endpoint "foo.com" Sample.endpoint Sample.single
           (fst (Put 0 Sample.endpoint (NewPool 2 "/"))));
    vm_compute; reflexivity.
Defined.

Lemma Register_Unregister_round_trip_witness :
  Find (RouteKey "bar.com") (byURI Sample.single) = None
  /\ find_path (key_path "foo.com")
       (byURI (Unregister "bar.com" Sample.other
                 (Register 5 "bar.com" Sample.other Sample.single)))
     = find_path (key_path "foo.com") (byURI Sample.single).
Proof.
  split; [vm_compute; reflexivity|].
  apply (Register_Unregister_round_trip 5 "bar.com" Sample.other Sample.single).
  vm_compute. reflexivity.
Defined.



Lemma RoundTrip_success_witness :
  failure (RoundTrip (Sample.roundTripper (Sample.returns (Some Sample.teapot) None))
             (Sample.request (Sample.context Sample.routePool None))) = None
  /\ returned (RoundTrip
                 (Sample.roundTripper (Sample.returns (Some Sample.teapot) None))
                 (Sample.request (Sample.context Sample.routePool None)))
     = Some Sample.teapot.
Proof.
  destruct (RoundTrip_success
              (Sample.roundTripper (Sample.returns (Some Sample.teapot) None))
              (Sample.request (Sample.context Sample.routePool None))
              Sample.routePool NewRecorder (mkRecord 0 None) (Some Sample.teapot))
    as (H1 & _ & _ & _ & _ & H6).
  - reflexivity.
  - reflexivity.
  - reflexivity.
  - reflexivity.
  - vm_compute. discriminate.
  - intros rq. reflexivity.
  - split; [exact H1|]. apply H6. vm_compute. discriminate.
Defined.

Lemma RoundTrip_trace_headers_witness :
  exists e out,
    In e (endpoints Sample.routePool)
    /\ transportCalls
         (after (RoundTrip
                   (Sample.roundTripper (Sample.returns (Some Sample.teapot) None))
                   (Sample.traced "my_trace_key"
                      (Sample.context Sample.routePool None))))
       = [to_endpoint e
            (Sample.traced "my_trace_key" (Sample.context Sample.routePool None))]
    /\ record (RoundTrip
                 (Sample.roundTripper (Sample.returns (Some Sample.teapot) None))
                 (Sample.traced "my_trace_key" (Sample.context Sample.routePool None)))
       = Some (mkRecord (LoggedStatusCode (mkRecord 0 None)) (Some e))
    /\ returned (RoundTrip
                   (Sample.roundTripper (Sample.returns (Some Sample.teapot) None))
                   (Sample.traced "my_trace_key" (Sample.context Sample.routePool None)))
       = Some out
    /\ StatusCode out = StatusCode Sample.teapot
    /\ header_get VcapRouterHeader (RespHeader out) = "127.0.0.1"%string
    /\ header_get VcapBackendHeader (RespHeader out) = CanonicalAddr e
    /\ header_get CfRouteEndpointHeader (RespHeader out) = CanonicalAddr e.
Proof.
  apply (RoundTrip_trace_headers
           (Sample.roundTripper (Sample.returns (Some Sample.teapot) None))
           (Sample.traced "my_trace_key" (Sample.context Sample.routePool None))
           Sample.routePool NewRecorder (mkRecord 0 None) Sample.teapot).
  - reflexivity.
  - reflexivity.
  - reflexivity.
  - reflexivity.
  - vm_compute. discriminate.
  - intros rq. reflexivity.
  - reflexivity.
Defined.

Lemma RoundTrip_retry_then_success_witness :
  failure (RoundTrip (Sample.roundTripper Sample.firstFails)
             (Sample.request (Sample.context Sample.routePool None))) = None
  /\ length (transportCalls
               (after (RoundTrip (Sample.roundTripper Sample.firstFails)
                         (Sample.request (Sample.context Sample.routePool None)))))
     = 2%nat
  /\ List.map message
       (logLines
          (after (RoundTrip (Sample.roundTripper Sample.firstFails)
                    (Sample.request (Sample.context Sample.routePool None)))))
     = ["backend-endpoint-failed"].
Proof.
  destruct (RoundTrip_retry_then_success
              (Sample.roundTripper Sample.firstFails)
              (Sample.request (Sample.context Sample.routePool None))
              Sample.routePool Sample.endpoint NewRecorder (mkRecord 0 None)
              None Sample.dialError None)
    as (H1 & _ & H3 & _ & _ & _ & _ & H8).
  - reflexivity.
  - reflexivity.
  - reflexivity.
  - reflexivity.
  - reflexivity.
  - intros rq. reflexivity.
  - reflexivity.
  - intros rq. reflexivity.
  - split; [exact H1|]. split; [now rewrite H3|exact H8].
Defined.

Lemma RoundTrip_retryable_exhausted_witness :
  retryableError Sample.connResetError = true
  /\ length (transportCalls
               (after (RoundTrip
                         (Sample.roundTripper
                            (Sample.returns None (Some Sample.connResetError)))
                         (Sample.request (Sample.context Sample.routePool None)))))
     = 3%nat
  /\ failure (RoundTrip
                (Sample.roundTripper (Sample.returns None (Some Sample.connResetError)))
                (Sample.request (Sample.context Sample.routePool None)))
     = Some Sample.connResetError.
Proof.
  split; [reflexivity|].
  destruct (RoundTrip_retryable_exhausted
              (Sample.roundTripper (Sample.returns None (Some Sample.connResetError)))
              (Sample.request (Sample.context Sample.routePool None))
              Sample.routePool Sample.endpoint NewRecorder (mkRecord 0 None))
    as (H1 & _ & _ & _ & H5 & _).
  - reflexivity.
  - reflexivity.
  - reflexivity.
  - reflexivity.
  - reflexivity.
  - intros k rq. exists None, Sample.connResetError. split; reflexivity.
  - split; [exact H1|exact H5].
Defined.

Lemma RoundTrip_route_service_exhausted_witness :
  length (transportCalls
            (after (RoundTrip
                      (Sample.roundTripper (Sample.returns None (Some Sample.dialError)))
                      (Sample.request
                         (Sample.context Sample.routePool
                            (Some Sample.routeServiceURL))))))
  = 3%nat
  /\ List.map message
       (logLines
          (after (RoundTrip
                    (Sample.roundTripper (Sample.returns None (Some Sample.dialError)))
                    (Sample.request
                       (Sample.context Sample.routePool
                          (Some Sample.routeServiceURL))))))
     = repeat "route-service-connection-failed"%string 3.
Proof.
  destruct (RoundTrip_route_service_exhausted
              (Sample.roundTripper (Sample.returns None (Some Sample.dialError)))
              (Sample.request
                 (Sample.context Sample.routePool (Some Sample.routeServiceURL)))
              Sample.routePool NewRecorder (mkRecord 0 None) Sample.routeServiceURL)
    as (H1 & _ & _ & _ & _ & _ & _ & H8).
  - reflexivity.
  - reflexivity.
  - reflexivity.
  - reflexivity.
  - intros k rq. exists None, Sample.dialError. split; reflexivity.
  - split; [now rewrite H1|exact H8].
Defined.

Lemma RoundTrip_route_service_success_witness :
  logLines
    (after (RoundTrip
              (Sample.roundTripper (Sample.returns (Some Sample.teapot) None))
              (Sample.request
                 (Sample.context Sample.routePool (Some Sample.routeServiceURL)))))
  = [mkLog InfoLevel "response" [("status-code", VInt 418)]]
  /\ reporterCalls
       (after (RoundTrip
                 (Sample.roundTripper (Sample.returns (Some Sample.teapot) None))
                 (Sample.request
                    (Sample.context Sample.routePool (Some Sample.routeServiceURL)))))
     = [].
Proof.
  destruct (RoundTrip_route_service_success
              (Sample.roundTripper (Sample.returns (Some Sample.teapot) None))
              (Sample.request
                 (Sample.context Sample.routePool (Some Sample.routeServiceURL)))
              Sample.routePool NewRecorder (mkRecord 0 None) Sample.routeServiceURL
              (Some Sample.teapot))
    as (_ & _ & H3 & _ & H5).
  - reflexivity.
  - reflexivity.
  - reflexivity.
  - reflexivity.
  - intros rq. reflexivity.
  - split; [exact H5|exact H3].
Defined.

